(** * Hyperforge: the apply_patch tool adapter, the Google search backend and
      the terminal chat client, embedded in Rocq.

    Sources embedded:
    - [src/custom_files/apply_patch_tool.py]  (module [ApplyPatchTool])
    - [src/custom_files/google_backend.py]    (module [GoogleBackend])
    - [src/gpt-oss-chat.py]                   (module [ChatClient])
    - [src/chat_client.py]                    (module [SimpleChatClient])

    The patch engine the adapter calls ([apply_patch.apply_patch]) is not part
    of the source files; module [PatchEngine] models it from the
    specification's sections 3, 4 and 7.

    Python values are embedded as follows: [int] as [Z] (unbounded), [str] as
    [string] (a sequence of bytes; non-ASCII text is its UTF-8 encoding),
    [list] as [list], [dict] as an association list in insertion order with
    unique keys, a call that may raise as a [pyresult]. *)

From stdpp Require Import gmap strings list fin_maps pretty.
From Stdlib Require Import ZArith Ascii String List Lia.
Import ListNotations.
Local Open Scope string_scope.
Local Open Scope list_scope.
Set Warnings "-register-all".

(* ===================================================================== *)
(** * Part I. Definitions                                                  *)
(* ===================================================================== *)

(** ** Python basics: exceptions, results, strings *)
Module Py.

(** An exception object: its class name and what [str(e)] renders. Only
    subclasses of [Exception] are represented. *)
Record pyexn := PyExn { exn_class : string; exn_str : string }.

(** The outcome of a call: a value or a raised exception. *)
Inductive pyresult (A : Type) : Type :=
| Returns (a : A)
| Raises (e : pyexn).
Arguments Returns {A} a.
Arguments Raises {A} e.

Definition bind {A B} (r : pyresult A) (k : A -> pyresult B) : pyresult B :=
  match r with
  | Returns a => k a
  | Raises e => Raises e
  end.

(** [s.startswith(p)] *)
Fixpoint startswith (p s : string) : bool :=
  match p, s with
  | EmptyString, _ => true
  | String a p', String b s' => if Ascii.eqb a b then startswith p' s' else false
  | String _ _, EmptyString => false
  end.

(** The characters [str.strip()] removes, among the bytes below 128:
    U+0009 to U+000D, U+001C to U+0020. *)
Definition is_space (c : ascii) : bool :=
  let n := nat_of_ascii c in
  (((9 <=? n) && (n <=? 13)) || ((28 <=? n) && (n <=? 32)))%nat.

(** The other characters [str.strip()] removes (those [str.isspace] accepts
    above U+007F), in UTF-8: U+0085, U+00A0, U+1680, U+2000 to U+200A,
    U+2028, U+2029, U+202F, U+205F and U+3000. *)
Definition wide_spaces : list string :=
  [String "194" (String "133" "");
   String "194" (String "160" "");
   String "225" (String "154" (String "128" ""));
   String "226" (String "128" (String "128" ""));
   String "226" (String "128" (String "129" ""));
   String "226" (String "128" (String "130" ""));
   String "226" (String "128" (String "131" ""));
   String "226" (String "128" (String "132" ""));
   String "226" (String "128" (String "133" ""));
   String "226" (String "128" (String "134" ""));
   String "226" (String "128" (String "135" ""));
   String "226" (String "128" (String "136" ""));
   String "226" (String "128" (String "137" ""));
   String "226" (String "128" (String "138" ""));
   String "226" (String "128" (String "168" ""));
   String "226" (String "128" (String "169" ""));
   String "226" (String "128" (String "175" ""));
   String "226" (String "129" (String "159" ""));
   String "227" (String "128" (String "128" ""))].

(** The number of bytes of the white-space character [s] begins with; 0
    when it begins with none. *)
Definition space_width (s : string) : nat :=
  match s with
  | EmptyString => 0
  | String c _ =>
      if is_space c then 1
      else match List.find (fun w => startswith w s) wide_spaces with
           | Some w => String.length w
           | None => 0
           end
  end.

(** [s] without the white space it begins with, once [skip] more bytes of
    a white-space character already recognised are dropped. *)
Fixpoint lstrip_from (skip : nat) (s : string) : string :=
  match s with
  | EmptyString => EmptyString
  | String _ r =>
      match skip with
      | S k => lstrip_from k r
      | O =>
          match space_width s with
          | S k => lstrip_from k r
          | O => s
          end
      end
  end.

(** [s.lstrip()] *)
Definition lstrip (s : string) : string := lstrip_from 0 s.

(** [s.rstrip()]: the bytes of [s] up to the point from which only white
    space follows. *)
Fixpoint rstrip (s : string) : string :=
  match s with
  | EmptyString => EmptyString
  | String c s' =>
      if String.eqb (lstrip (String c s')) "" then EmptyString
      else String c (rstrip s')
  end.

(** [s.strip()] *)
Definition strip (s : string) : string := rstrip (lstrip s).

Definition lower_char (c : ascii) : ascii :=
  let n := nat_of_ascii c in
  if ((65 <=? n) && (n <=? 90))%nat then ascii_of_nat (n + 32) else c.

(** [s.lower()] as far as the letters A to Z go; the bytes of other
    characters are kept. The clients compare the lowered line with command
    words written in ASCII letters other than k: such a comparison does not
    depend on how characters outside ASCII are lowered, since none of them
    lowers to one of these letters (U+212A alone lowers to an ASCII letter,
    k). *)
Fixpoint lower (s : string) : string :=
  match s with
  | EmptyString => EmptyString
  | String c s' => String (lower_char c) (lower s')
  end.

(** [l.pop()]: the list without its last element, [IndexError] on []. *)
Definition pop {A} (l : list A) : pyresult (list A) :=
  match l with
  | [] => Raises (PyExn "IndexError" "pop from empty list")
  | _ => Returns (removelast l)
  end.

(** [sub in s] on two strings. *)
Fixpoint contains (sub s : string) : bool :=
  startswith sub s ||
  match s with
  | String _ r => contains sub r
  | EmptyString => false
  end.

(** A UTF-8 continuation byte (10xxxxxx): it belongs to the character begun
    before it. *)
Definition is_continuation (c : ascii) : bool :=
  let n := nat_of_ascii c in
  ((128 <=? n) && (n <=? 191))%nat.

(** [len(s)]: the number of characters of the text, not of its bytes. *)
Fixpoint len (s : string) : nat :=
  match s with
  | EmptyString => 0
  | String c r => if is_continuation c then len r else S (len r)
  end.

(** [s[:n]]: the first [n] characters. *)
Fixpoint slice_to (n : nat) (s : string) : string :=
  match s with
  | EmptyString => EmptyString
  | String c r =>
      if is_continuation c then String c (slice_to n r)
      else
        match n with
        | O => EmptyString
        | S n' => String c (slice_to n' r)
        end
  end.

(** [s * n] *)
Fixpoint times (s : string) (n : nat) : string :=
  match n with
  | O => EmptyString
  | S n' => s +:+ times s n'
  end.

(** The characters of [s], one string each, as [for c in s] delivers them. *)
Fixpoint chars (s : string) : list string :=
  match s with
  | EmptyString => []
  | String c r =>
      match chars r with
      | p :: ps =>
          match p with
          | String d _ => if is_continuation d then String c p :: ps
                          else String c EmptyString :: p :: ps
          | EmptyString => String c EmptyString :: ps
          end
      | [] => [String c EmptyString]
      end
  end.

(** [s.split(sep)] for a separator of one character: never empty. *)
Fixpoint split (sep : ascii) (s : string) : list string :=
  match s with
  | EmptyString => [EmptyString]
  | String c r =>
      if Ascii.eqb c sep then EmptyString :: split sep r
      else
        match split sep r with
        | x :: xs => String c x :: xs
        | [] => [String c EmptyString]
        end
  end.

(** [s.rstrip(chars)] for a set [chars] of one character. *)
Fixpoint rstrip_char (ch : ascii) (s : string) : string :=
  match s with
  | EmptyString => EmptyString
  | String c s' =>
      match rstrip_char ch s' with
      | EmptyString => if Ascii.eqb c ch then EmptyString else String c EmptyString
      | r => String c r
      end
  end.

End Py.

(** ** JSON values, as [json.loads] builds them *)
Module Json.

(** A decoded JSON document. [JObj] is a Python [dict]: pairs in insertion
    order, keys unique. A float keeps its lexeme. *)
Inductive value : Type :=
| JNull
| JBool (b : bool)
| JInt (n : Z)
| JFloat (lexeme : string)
| JStr (s : string)
| JArr (items : list value)
| JObj (pairs : list (string * value)).

(** [d[k] = v] on a dict: overwrite in place, or append a new key. *)
Fixpoint dict_set (d : list (string * value)) (k : string) (v : value)
  : list (string * value) :=
  match d with
  | [] => [(k, v)]
  | (k', v') :: d' =>
      if String.eqb k' k then (k', v) :: d' else (k', v') :: dict_set d' k v
  end.

(** [dict(pairs)] *)
Definition dict_of_pairs (ps : list (string * value)) : list (string * value) :=
  fold_left (fun d kv => dict_set d (fst kv) (snd kv)) ps [].

(** [d.get(k)] *)
Fixpoint dict_get (d : list (string * value)) (k : string) : option value :=
  match d with
  | [] => None
  | (k', v) :: d' => if String.eqb k' k then Some v else dict_get d' k
  end.

(** [d.popitem()]: the pair inserted last, [KeyError] on an empty dict. *)
Definition popitem (d : list (string * value))
  : Py.pyresult ((string * value) * list (string * value)) :=
  match List.rev d with
  | [] => Py.Raises (Py.PyExn "KeyError" "'popitem(): dictionary is empty'")
  | kv :: r => Py.Returns (kv, List.rev r)
  end.

(** *** The decoder: a model of the standard library's [json.loads]

    It accepts the JSON grammar as CPython's decoder does in its default
    (strict) mode, the literals [NaN], [Infinity] and [-Infinity] included,
    and builds dicts with [dict(pairs)]. A failure is a [JSONDecodeError];
    the position suffix of its message is left out. *)

Definition JSONDecodeError (msg : string) : Py.pyexn :=
  Py.PyExn "JSONDecodeError" msg.

Definition dquote : ascii := "034"%char.
Definition backslash : ascii := "092"%char.

(** The decoder's WHITESPACE: space, tab, line feed, carriage return. *)
Definition is_ws (c : ascii) : bool :=
  Ascii.eqb c " " || Ascii.eqb c "009" || Ascii.eqb c "010" || Ascii.eqb c "013".

Fixpoint skip_ws (s : string) : string :=
  match s with
  | String c r => if is_ws c then skip_ws r else s
  | EmptyString => EmptyString
  end.

Definition is_digit (c : ascii) : bool :=
  let n := N_of_ascii c in ((48 <=? n) && (n <=? 57))%N.

(** The longest prefix of digits, and what follows it. *)
Fixpoint span_digits (s : string) : string * string :=
  match s with
  | String c r =>
      if is_digit c then let '(ds, rest) := span_digits r in (String c ds, rest)
      else (EmptyString, s)
  | EmptyString => (EmptyString, EmptyString)
  end.

Definition digits_to_Z (ds : string) : Z :=
  fold_left (fun acc c => (acc * 10 + (Z.of_N (N_of_ascii c) - 48))%Z)
            (list_ascii_of_string ds) 0%Z.

(** The decoder's number pattern: an optional minus sign, then 0 or a
    digit 1-9 followed by digits; optionally a fraction (a dot and at least
    one digit); optionally an exponent (e or E, an optional sign, at least
    one digit). A fraction or an exponent makes the number a float. *)
Definition scan_number (s : string) : option (value * string) :=
  let '(neg, s1) := match s with
                    | String c r => if Ascii.eqb c "-" then (true, r) else (false, s)
                    | EmptyString => (false, s)
                    end in
  let int_part :=
    match s1 with
    | String c r =>
        if Ascii.eqb c "0" then Some ("0", r)
        else if is_digit c then let '(ds, rest) := span_digits r in Some (String c ds, rest)
        else None
    | EmptyString => None
    end in
  match int_part with
  | None => None
  | Some (ip, r1) =>
      let '(frac, r2) :=
        match r1 with
        | String c r =>
            if Ascii.eqb c "." then
              let '(fs, rest) := span_digits r in
              if String.eqb fs "" then ("", r1) else (String c fs, rest)
            else ("", r1)
        | EmptyString => ("", r1)
        end in
      let '(expo, r3) :=
        match r2 with
        | String e r =>
            if Ascii.eqb e "e" || Ascii.eqb e "E" then
              let '(sign, r') :=
                match r with
                | String sg r'' =>
                    if Ascii.eqb sg "-" || Ascii.eqb sg "+" then (String sg "", r'')
                    else ("", r)
                | EmptyString => ("", r)
                end in
              let '(es, rest) := span_digits r' in
              if String.eqb es "" then ("", r2) else (String e (sign +:+ es), rest)
            else ("", r2)
        | EmptyString => ("", r2)
        end in
      let sign := if neg then "-" else "" in
      if String.eqb frac "" && String.eqb expo "" then
        Some (JInt (if neg then - digits_to_Z ip else digits_to_Z ip)%Z, r3)
      else Some (JFloat (sign +:+ ip +:+ frac +:+ expo), r3)
  end.

(** Whether [float(lexeme)] is zero, for a lexeme of the number pattern
    above. The lexeme denotes [m * 10^scale], [m] being the digits of its
    integer part and of its fraction read as one number. [float] rounds to
    the nearest double, ties to even; the smallest positive double is
    [2^-1074], so the result is zero exactly when [m * 10^scale <= 2^-1075].
    [NaN] and the infinities, which open with no digit, are not zero. *)
Definition float_is_zero (lexeme : string) : bool :=
  let s1 := match lexeme with
            | String c r => if Ascii.eqb c "-" then r else lexeme
            | EmptyString => lexeme
            end in
  let '(ip, r1) := span_digits s1 in
  if String.eqb ip "" then false
  else
    let '(fs, r2) :=
      match r1 with
      | String c r => if Ascii.eqb c "." then span_digits r else ("", r1)
      | EmptyString => ("", r1)
      end in
    let e :=
      match r2 with
      | String c r =>
          if Ascii.eqb c "e" || Ascii.eqb c "E" then
            match r with
            | String sg r' =>
                if Ascii.eqb sg "-" then (- digits_to_Z (fst (span_digits r')))%Z
                else if Ascii.eqb sg "+" then digits_to_Z (fst (span_digits r'))
                else digits_to_Z (fst (span_digits r))
            | EmptyString => 0%Z
            end
          else 0%Z
      | EmptyString => 0%Z
      end in
    let m := digits_to_Z (ip +:+ fs) in
    let scale := (e - Z.of_nat (String.length fs))%Z in
    (m =? 0)%Z || ((scale <? 0)%Z && (m * 2 ^ 1075 <=? 10 ^ (- scale))%Z).

(** Python truthiness of a decoded value ([if v:]). *)
Definition truthy (v : value) : bool :=
  match v with
  | JNull => false
  | JBool b => b
  | JInt n => negb (n =? 0)%Z
  | JFloat lexeme => negb (float_is_zero lexeme)
  | JStr s => negb (String.eqb s "")
  | JArr l => match l with [] => false | _ => true end
  | JObj d => match d with [] => false | _ => true end
  end.

Definition hex_val (c : ascii) : option N :=
  let n := N_of_ascii c in
  if ((48 <=? n) && (n <=? 57))%N then Some (n - 48)%N
  else if ((97 <=? n) && (n <=? 102))%N then Some (n - 87)%N
  else if ((65 <=? n) && (n <=? 70))%N then Some (n - 55)%N
  else None.

(** The four hexadecimal digits of a [\uXXXX] escape. *)
Definition decode_uXXXX (s : string) : option (N * string) :=
  match s with
  | String a (String b (String c (String d r))) =>
      match hex_val a, hex_val b, hex_val c, hex_val d with
      | Some x, Some y, Some z, Some w => Some ((((x * 16 + y) * 16 + z) * 16 + w)%N, r)
      | _, _, _, _ => None
      end
  | _ => None
  end.

(** [chr(cp)] as UTF-8 bytes. *)
Definition utf8 (cp : N) : string :=
  let b (n : N) := ascii_of_N n in
  if (cp <? 128)%N then String (b cp) ""
  else if (cp <? 2048)%N then
    String (b (192 + cp / 64)%N) (String (b (128 + cp mod 64)%N) "")
  else if (cp <? 65536)%N then
    String (b (224 + cp / 4096)%N)
      (String (b (128 + (cp / 64) mod 64)%N) (String (b (128 + cp mod 64)%N) ""))
  else
    String (b (240 + cp / 262144)%N)
      (String (b (128 + (cp / 4096) mod 64)%N)
        (String (b (128 + (cp / 64) mod 64)%N) (String (b (128 + cp mod 64)%N) ""))).

(** The one-character escapes. *)
Definition simple_escape (e : ascii) : option ascii :=
  if Ascii.eqb e dquote then Some dquote
  else if Ascii.eqb e backslash then Some backslash
  else if Ascii.eqb e "/" then Some "/"%char
  else if Ascii.eqb e "b" then Some "008"%char
  else if Ascii.eqb e "f" then Some "012"%char
  else if Ascii.eqb e "n" then Some "010"%char
  else if Ascii.eqb e "r" then Some "013"%char
  else if Ascii.eqb e "t" then Some "009"%char
  else None.

Definition prepend (p : string) (r : Py.pyresult (string * string))
  : Py.pyresult (string * string) :=
  match r with
  | Py.Returns (str, rest) => Py.Returns (p +:+ str, rest)
  | Py.Raises e => Py.Raises e
  end.

(** [scanstring]: the text after an opening quote, up to the closing one. *)
Fixpoint scanstring (fuel : nat) (s : string) : Py.pyresult (string * string) :=
  match fuel with
  | O => Py.Raises (JSONDecodeError "Unterminated string starting at")
  | S f =>
      match s with
      | EmptyString => Py.Raises (JSONDecodeError "Unterminated string starting at")
      | String c r =>
          if Ascii.eqb c dquote then Py.Returns ("", r)
          else if Ascii.eqb c backslash then
            match r with
            | EmptyString => Py.Raises (JSONDecodeError "Unterminated string starting at")
            | String e r' =>
                if Ascii.eqb e "u" then
                  match decode_uXXXX r' with
                  | None => Py.Raises (JSONDecodeError "Invalid \uXXXX escape")
                  | Some (uni, r2) =>
                      if ((55296 <=? uni) && (uni <=? 56319))%N
                         && Py.startswith (String backslash "u") r2 then
                        match decode_uXXXX (String.substring 2 (String.length r2 - 2) r2) with
                        | None => Py.Raises (JSONDecodeError "Invalid \uXXXX escape")
                        | Some (uni2, r4) =>
                            if ((56320 <=? uni2) && (uni2 <=? 57343))%N then
                              prepend
                                (utf8 (65536 + ((uni - 55296) * 1024 + (uni2 - 56320)))%N)
                                (scanstring f r4)
                            else prepend (utf8 uni) (scanstring f r2)
                        end
                      else prepend (utf8 uni) (scanstring f r2)
                  end
                else
                  match simple_escape e with
                  | Some ch => prepend (String ch "") (scanstring f r')
                  | None => Py.Raises (JSONDecodeError "Invalid \escape")
                  end
            end
          else if (N_of_ascii c <? 32)%N then
            Py.Raises (JSONDecodeError "Invalid control character at")
          else prepend (String c "") (scanstring f r)
      end
  end.

(** [scan_once], [JSONObject] and [JSONArray]. [scan_pairs] reads an
    object from its first key on, [scan_items] an array from its first
    element on; both collect what they have read in [acc], reversed. *)
Fixpoint scan_once (fuel : nat) (s : string) : Py.pyresult (value * string) :=
  match fuel with
  | O => Py.Raises (Py.PyExn "RecursionError" "maximum recursion depth exceeded")
  | S f =>
      match s with
      | EmptyString => Py.Raises (JSONDecodeError "Expecting value")
      | String c r =>
          if Ascii.eqb c dquote then
            match scanstring (String.length r) r with
            | Py.Returns (str, rest) => Py.Returns (JStr str, rest)
            | Py.Raises e => Py.Raises e
            end
          else if Ascii.eqb c "{" then
            match skip_ws r with
            | String c' r' =>
                if Ascii.eqb c' "}" then Py.Returns (JObj [], r')
                else if Ascii.eqb c' dquote then scan_pairs f r' []
                else Py.Raises (JSONDecodeError
                                  "Expecting property name enclosed in double quotes")
            | EmptyString =>
                Py.Raises (JSONDecodeError
                             "Expecting property name enclosed in double quotes")
            end
          else if Ascii.eqb c "[" then
            match skip_ws r with
            | String c' r' =>
                if Ascii.eqb c' "]" then Py.Returns (JArr [], r')
                else scan_items f (String c' r') []
            | EmptyString => Py.Raises (JSONDecodeError "Expecting value")
            end
          else if Py.startswith "null" s then
            Py.Returns (JNull, String.substring 4 (String.length s - 4) s)
          else if Py.startswith "true" s then
            Py.Returns (JBool true, String.substring 4 (String.length s - 4) s)
          else if Py.startswith "false" s then
            Py.Returns (JBool false, String.substring 5 (String.length s - 5) s)
          else
            match scan_number s with
            | Some r => Py.Returns r
            | None =>
                if Py.startswith "NaN" s then
                  Py.Returns (JFloat "NaN", String.substring 3 (String.length s - 3) s)
                else if Py.startswith "Infinity" s then
                  Py.Returns (JFloat "Infinity", String.substring 8 (String.length s - 8) s)
                else if Py.startswith "-Infinity" s then
                  Py.Returns (JFloat "-Infinity", String.substring 9 (String.length s - 9) s)
                else Py.Raises (JSONDecodeError "Expecting value")
            end
      end
  end
with scan_pairs (fuel : nat) (s : string) (acc : list (string * value))
  : Py.pyresult (value * string) :=
  match fuel with
  | O => Py.Raises (Py.PyExn "RecursionError" "maximum recursion depth exceeded")
  | S f =>
      match scanstring (String.length s) s with
      | Py.Raises e => Py.Raises e
      | Py.Returns (k, r1) =>
          match skip_ws r1 with
          | String c r2 =>
              if Ascii.eqb c ":" then
                match scan_once f (skip_ws r2) with
                | Py.Raises e => Py.Raises e
                | Py.Returns (v, r3) =>
                    match skip_ws r3 with
                    | String d r4 =>
                        if Ascii.eqb d "}" then
                          Py.Returns (JObj (dict_of_pairs (List.rev ((k, v) :: acc))), r4)
                        else if Ascii.eqb d "," then
                          match skip_ws r4 with
                          | String q r5 =>
                              if Ascii.eqb q dquote then scan_pairs f r5 ((k, v) :: acc)
                              else Py.Raises
                                     (JSONDecodeError
                                        "Expecting property name enclosed in double quotes")
                          | EmptyString =>
                              Py.Raises
                                (JSONDecodeError
                                   "Expecting property name enclosed in double quotes")
                          end
                        else Py.Raises (JSONDecodeError "Expecting ',' delimiter")
                    | EmptyString => Py.Raises (JSONDecodeError "Expecting ',' delimiter")
                    end
                end
              else Py.Raises (JSONDecodeError "Expecting ':' delimiter")
          | EmptyString => Py.Raises (JSONDecodeError "Expecting ':' delimiter")
          end
      end
  end
with scan_items (fuel : nat) (s : string) (acc : list value)
  : Py.pyresult (value * string) :=
  match fuel with
  | O => Py.Raises (Py.PyExn "RecursionError" "maximum recursion depth exceeded")
  | S f =>
      match scan_once f s with
      | Py.Raises e => Py.Raises e
      | Py.Returns (v, r1) =>
          match skip_ws r1 with
          | String d r2 =>
              if Ascii.eqb d "]" then Py.Returns (JArr (List.rev (v :: acc)), r2)
              else if Ascii.eqb d "," then scan_items f (skip_ws r2) (v :: acc)
              else Py.Raises (JSONDecodeError "Expecting ',' delimiter")
          | EmptyString => Py.Raises (JSONDecodeError "Expecting ',' delimiter")
          end
      end
  end.

(** [json.loads(s)]: leading whitespace, one value, trailing whitespace. *)
Definition loads (s : string) : Py.pyresult value :=
  match scan_once (S (String.length s)) (skip_ws s) with
  | Py.Raises e => Py.Raises e
  | Py.Returns (v, rest) =>
      if String.eqb (skip_ws rest) "" then Py.Returns v
      else Py.Raises (JSONDecodeError "Extra data")
  end.

(** *** What the clients and the backend do with decoded values *)

(** [v.get(k, default)]: only a dict has [get]. *)
Definition get (v : value) (k : string) (default : value) : Py.pyresult value :=
  match v with
  | JObj d => Py.Returns (match dict_get d k with
                          | Some x => x
                          | None => default
                          end)
  | _ => Py.Raises (Py.PyExn "AttributeError" "object has no attribute 'get'")
  end.

(** [v == s] for a string [s]. *)
Definition eq_str (v : value) (s : string) : bool :=
  match v with
  | JStr t => String.eqb t s
  | _ => false
  end.

(** [for x in v]: the items of a list, the characters of a str, the keys of
    a dict; nothing else can be iterated. *)
Definition iterate (v : value) : Py.pyresult (list value) :=
  match v with
  | JArr l => Py.Returns l
  | JStr s => Py.Returns (map JStr (Py.chars s))
  | JObj d => Py.Returns (map (fun kv => JStr (fst kv)) d)
  | _ => Py.Raises (Py.PyExn "TypeError" "object is not iterable")
  end.

(** A [for] loop over [l] whose body may raise: the first exception ends
    it. *)
Fixpoint for_each (body : value -> Py.pyresult unit) (l : list value)
  : Py.pyresult unit :=
  match l with
  | [] => Py.Returns tt
  | x :: r => Py.bind (body x) (fun _ => for_each body r)
  end.

(** [s in v] for a string [s]: a substring of a str, an item of a list, a
    key of a dict. *)
Definition str_in (s : string) (v : value) : Py.pyresult bool :=
  match v with
  | JStr t => Py.Returns (Py.contains s t)
  | JArr l => Py.Returns (existsb (fun x => eq_str x s) l)
  | JObj d => Py.Returns (match dict_get d s with
                          | Some _ => true
                          | None => false
                          end)
  | _ => Py.Raises (Py.PyExn "TypeError" "argument is not iterable")
  end.

End Json.

(** ** src/custom_files/apply_patch_tool.py: class ApplyPatchTool *)
Module ApplyPatchTool.
Import Py Json.

(** The message types of [openai_harmony] the adapter touches. *)
Inductive Role : Type := USER | ASSISTANT | SYSTEM | DEVELOPER | TOOL.

Record Author := { role : Role; author_name : option string }.

(** A content part: a [TextContent], or a part of another kind, which has
    no [text] attribute. *)
Inductive Content : Type :=
| TextContent (text : string)
| OtherContent.

Record Message := {
  author : Author;
  content : list Content;
  channel : option string;
  recipient : option string
}.

Definition get_tool_name : string := "apply_patch".

Definition with_recipient (m : Message) (r : string) : Message :=
  {| author := author m; content := content m; channel := channel m;
     recipient := Some r |}.

Definition with_channel (m : Message) (c : string) : Message :=
  {| author := author m; content := content m; channel := Some c;
     recipient := recipient m |}.

(** [make_response]: [if channel:] is false for [None] and for the empty
    string. *)
Definition make_response (c : Content) (chan : option string) : Message :=
  let message :=
    with_recipient {| author := {| role := TOOL; author_name := Some get_tool_name |};
                      content := [c]; channel := None; recipient := None |}
                   "assistant" in
  match chan with
  | Some ch => if String.eqb ch "" then message else with_channel message ch
  | None => message
  end.

Definition _make_response (output : string) (chan : option string) : Message :=
  make_response (TextContent output) chan.

(** The engine [apply_patch.apply_patch]: what it is called with is
    whatever the unwrapping left in [patch_text] (a [str], or any other
    decoded JSON value); it returns its summary or raises. *)
Definition engine := value -> pyresult string.

(** What one run of the async generator [_process] does: the messages it
    yields, in order; the arguments of its calls of the engine, in order;
    and the exception that ends it, if one propagates to the caller. *)
Record run := {
  yielded : list Message;
  engine_calls : list value;
  raised : option pyexn
}.

(** [message.content[0].text] *)
Definition first_text (m : Message) : pyresult string :=
  match content m with
  | [] => Raises (PyExn "IndexError" "list index out of range")
  | TextContent t :: _ => Returns t
  | OtherContent :: _ => Raises (PyExn "AttributeError" "object has no attribute 'text'")
  end.

(** Lines 93-95: [some_dict = json.loads(patch_text)] and
    [_, patch_text = some_dict.popitem()]. *)
Definition unwrap (patch_text : string) : pyresult value :=
  bind (loads patch_text) (fun some_dict =>
  match some_dict with
  | JObj d => bind (popitem d) (fun r => Returns (snd (fst r)))
  | _ => Raises (PyExn "AttributeError" "object has no attribute 'popitem'")
  end).

(** Lines 101-107: the call of the engine inside its [try]. *)
Definition apply_step (apply_patch : engine) (patch_text : value)
    (chan : option string) : run :=
  match apply_patch patch_text with
  | Returns result =>
      {| yielded := [_make_response result chan];
         engine_calls := [patch_text]; raised := None |}
  | Raises e =>
      {| yielded := [_make_response ("Error applying patch: " +:+ exn_str e) chan];
         engine_calls := [patch_text]; raised := None |}
  end.

(** [_process] *)
Definition _process (apply_patch : engine) (message : Message) : run :=
  match first_text message with
  | Raises e => {| yielded := []; engine_calls := []; raised := Some e |}
  | Returns patch_text =>
      let chan := channel message in
      if startswith "{" patch_text then
        match unwrap patch_text with
        | Raises e =>
            {| yielded := [_make_response ("Error parsing JSON: " +:+ exn_str e) chan];
               engine_calls := []; raised := None |}
        | Returns unwrapped => apply_step apply_patch unwrapped chan
        end
      else apply_step apply_patch (JStr patch_text) chan
  end.

(** A tool-call message carrying [text]. *)
Definition text_message (text : string) (chan : option string) : Message :=
  {| author := {| role := ASSISTANT; author_name := None |};
     content := [TextContent text]; channel := chan;
     recipient := Some get_tool_name |}.

(** The specification's words: [text] is a single-key structured envelope of
    [patch], a JSON object with exactly one key whose value is the patch
    text. *)
Definition is_envelope_of (text patch : string) : Prop :=
  exists k, loads text = Returns (JObj [(k, JStr patch)]).

(** The patch format's header line, with which raw patch text begins. *)
Definition begin_marker : string := "*** Begin Patch".

(** An envelope and the patch it wraps, for the examples below:
    [{"patch": "*** Begin Patch\n*** Delete File: a.txt\n*** End Patch"}]. *)
Definition example_patch : string :=
  "*** Begin Patch" +:+ String "010" "*** Delete File: a.txt"
                    +:+ String "010" "*** End Patch".

Definition example_envelope : string :=
  "{" +:+ String dquote "patch" +:+ String dquote ": " +:+ String dquote
    "*** Begin Patch\n*** Delete File: a.txt\n*** End Patch" +:+ String dquote "}".

(** A wrapper of two keys: [{"a": "x", "b": "y"}]. *)
Definition two_key_wrapper : string :=
  "{" +:+ String dquote "a" +:+ String dquote ": " +:+ String dquote "x"
      +:+ String dquote ", " +:+ String dquote "b" +:+ String dquote ": "
      +:+ String dquote "y" +:+ String dquote "}".

End ApplyPatchTool.

(** ** src/custom_files/google_backend.py *)
Module GoogleBackend.
Import Py.

(** The two environment variables the backend reads. *)
Record environ := { GOOGLE_KEY : option string; GOOGLE_CX : option string }.

Definition BackendError (msg : string) : pyexn := PyExn "BackendError" msg.

(** [_get_api_key]: [if not key: raise] covers both unset and empty. *)
Definition _get_api_key (env : environ) : pyresult string :=
  match GOOGLE_KEY env with
  | Some key => if String.eqb key "" then Raises (BackendError "Google API key not provided")
                else Returns key
  | None => Raises (BackendError "Google API key not provided")
  end.

Definition _get_cx (env : environ) : pyresult string :=
  match GOOGLE_CX env with
  | Some cx => if String.eqb cx "" then
                 Raises (BackendError "Google Custom Search Engine ID not provided")
               else Returns cx
  | None => Raises (BackendError "Google Custom Search Engine ID not provided")
  end.

(** The [params] dict of [search]. *)
Record search_params := { key : string; cx : string; q : string; num : Z }.

(** The GET request [search] issues. *)
Record request := { url : string; params : search_params }.

(** [search] up to the call [session.get(url, params=params)]: the request
    it sends, or the error raised before sending. *)
Definition search_request (env : environ) (query : string) (topn : Z)
  : pyresult request :=
  bind (_get_api_key env) (fun api_key =>
  bind (_get_cx env) (fun cx_ =>
  Returns {| url := "https://www.googleapis.com/customsearch/v1";
             params := {| key := api_key; cx := cx_; q := query;
                          num := Z.min topn 10 |} |})).

(** *** The rest of [search], and [fetch] *)

(** What the code reads of the response of [session.get]: [resp.status],
    [await resp.text()] and [await resp.json()], which raises when the body
    is no JSON. *)
Record response := {
  status : Z;
  text : string;
  json : pyresult Json.value
}.

(** The session: the response of a GET, or the exception [session.get]
    raises. [search] passes the request's URL and [params]; [fetch] passes
    the URL alone. *)
Definition search_session := request -> pyresult response.
Definition fetch_session := string -> pyresult response.

(** The arguments of the call of [process_html] (module [page_contents],
    not part of the source files) that ends both [search] and [fetch]. *)
Record process_html_call := {
  html : string;
  page_url : string;
  title : string;
  display_urls : bool
}.

(** [item.get(k, "")] for an item that is a dict. *)
Definition field (item : list (string * Json.value)) (k : string) : Json.value :=
  match Json.dict_get item k with
  | Some v => v
  | None => Json.JStr ""
  end.

(** Lines 60-63, the body of the loop over [data["items"]]: the tuple
    appended for one item. *)
Definition item_tuple (item : Json.value)
  : pyresult (Json.value * Json.value * Json.value) :=
  match item with
  | Json.JObj d => Returns (field d "title", field d "link", field d "snippet")
  | _ => Raises (PyExn "AttributeError" "object has no attribute 'get'")
  end.

Fixpoint item_tuples (items : list Json.value)
  : pyresult (list (Json.value * Json.value * Json.value)) :=
  match items with
  | [] => Returns []
  | item :: rest =>
      bind (item_tuple item) (fun t =>
      bind (item_tuples rest) (fun ts => Returns (t :: ts)))
  end.

(** Lines 57-63: [titles_and_urls]. [data] is whatever JSON the service
    sent: [in] and the subscript need a dict ([in] also takes a list or a
    str, on which the subscript then fails), and the loop needs something
    iterable whose items are dicts. *)
Definition titles_and_urls (data : Json.value)
  : pyresult (list (Json.value * Json.value * Json.value)) :=
  bind (Json.str_in "items" data) (fun present =>
  if present then
    match data with
    | Json.JObj d =>
        match Json.dict_get d "items" with
        | Some v => bind (Json.iterate v) item_tuples
        | None => Raises (PyExn "KeyError" "'items'")
        end
    | _ => Raises (PyExn "TypeError" "indices must be integers")
    end
  else Returns []).

Section Page.

(** [str(v)] for a value that is no str, as an f-string renders it; its
    definition belongs to the Python runtime. *)
Variable pystr : Json.value -> string.

(** An f-string field. *)
Definition fmt (v : Json.value) : string :=
  match v with
  | Json.JStr s => s
  | _ => pystr v
  end.

(** Line 69: one list entry. *)
Definition list_entry (t : Json.value * Json.value * Json.value) : string :=
  let '(title_, url_, summary) := t in
  "<li><a href='" +:+ fmt url_ +:+ "'>" +:+ fmt title_ +:+ "</a><br>"
    +:+ fmt summary +:+ "</li>".

(** Lines 65-72: [html_page]. *)
Definition html_page (query : string)
    (tuples : list (Json.value * Json.value * Json.value)) : string :=
  String "010" "<html><body>" +:+
  String "010" "<h1>Search Results for: " +:+ query +:+ "</h1>" +:+
  String "010" "<ul>" +:+
  String "010" (String.concat "" (map list_entry tuples)) +:+
  String "010" "</ul>" +:+
  String "010" "</body></html>" +:+
  String "010" "".

(** [search], up to its call of [process_html]. *)
Definition search (env : environ) (query : string) (topn : Z)
    (session : search_session) : pyresult process_html_call :=
  bind (search_request env query topn) (fun req =>
  bind (session req) (fun resp =>
  if negb (status resp =? 200)%Z then
    Raises (BackendError ("GoogleBackend error " +:+ pretty (status resp)
                            +:+ ": " +:+ text resp))
  else
    bind (json resp) (fun data =>
    bind (titles_and_urls data) (fun tuples =>
    Returns {| html := html_page query tuples; page_url := ""; title := query;
               display_urls := true |})))).

End Page.

(** [fetch], up to its call of [process_html]. *)
Definition fetch (url_ : string) (session : fetch_session)
  : pyresult process_html_call :=
  bind (session url_) (fun resp =>
  if negb (status resp =? 200)%Z then
    Raises (BackendError ("Failed to fetch " +:+ url_ +:+ ": HTTP "
                            +:+ pretty (status resp)))
  else
    Returns {| html := text resp; page_url := url_; title := "";
               display_urls := true |}).

(** For the examples below: both variables set, and a session that answers
    every request with status 200 and the body [{}]. *)
Definition both_set : environ :=
  {| GOOGLE_KEY := Some "k"; GOOGLE_CX := Some "c" |}.

Definition empty_answer : search_session :=
  fun _ => Returns {| status := 200; text := "{}"; json := Returns (Json.JObj []) |}.

End GoogleBackend.

(** ** src/gpt-oss-chat.py: class ChatClient *)
Module ChatClient.
Import Py Json.

(** The fields of a [ChatClient] instance. *)
Record client := {
  api_url : string;
  enable_file_editing : bool;
  enable_web_search : bool;
  max_tokens : Z;
  custom_instructions : option string;
  conversation_history : list value
}.

Definition set_history (self : client) (h : list value) : client :=
  {| api_url := api_url self;
     enable_file_editing := enable_file_editing self;
     enable_web_search := enable_web_search self;
     max_tokens := max_tokens self;
     custom_instructions := custom_instructions self;
     conversation_history := h |}.

(** The dict appended for a user turn, both by [run] and by [send_message]. *)
Definition user_message_item (text : string) : value :=
  JObj [("type", JStr "message"); ("role", JStr "user");
        ("content", JArr [JObj [("type", JStr "input_text"); ("text", JStr text)]])].

Definition build_tools_list (self : client) : list value :=
  ((if enable_web_search self then [JObj [("type", JStr "web_search")]] else []) ++
   (if enable_file_editing self then [JObj [("type", JStr "file_editing")]] else []))%list.

Fixpoint join (sep : string) (l : list string) : string :=
  match l with
  | [] => ""
  | [x] => x
  | x :: r => x +:+ sep +:+ join sep r
  end.

(** [build_instructions]; [cwd] is what [os.getcwd()] returns. *)
Definition build_instructions (self : client) (cwd : string) : string :=
  let custom := match custom_instructions self with
                | Some i => if String.eqb i "" then [] else [i]
                | None => []
                end in
  let capabilities :=
    ((if enable_file_editing self then ["edit files"] else []) ++
     (if enable_web_search self then ["search the web"] else []))%list in
  let caps := match capabilities with
              | [] => []
              | _ => ["You can " +:+ join " and " capabilities +:+ " to help the user."]
              end in
  join (String "010" "")
       (custom ++ ["You are working in directory: " +:+ cwd] ++ caps)%list.

(** What [requests.post(...)], [raise_for_status()] and [response.json()]
    come to, seen from [send_message]'s [try] block. *)
Inductive http_outcome : Type :=
| HttpJson (body : value)
| HttpConnectionError
| HttpTimeout
| HttpStatusError (status : Z) (text : string)
| HttpOtherError (e : pyexn).

(** The remote service: payload to outcome. *)
Definition server := value -> http_outcome.

(** [send_message]: builds the payload from a copy of the history (the
    history itself is not changed) and returns the decoded body, or [None]
    after every exception of class [Exception] raised in its [try] block.
    [cwd] is what [os.getcwd()] returned to [build_instructions]. This is
    the call that returns: [os.getcwd()] raising (it is called outside the
    [try] block) and Ctrl-C arriving during the request (a
    [KeyboardInterrupt] is no [Exception]) both leave [send_message]
    without a return value, and are dealt with where the loop of [run]
    meets them, in [run_iteration]. Terminal output is not modelled. *)
Definition send_message (self : client) (cwd : string) (srv : server)
    (user_message : string) : option value :=
  let conversation_input := conversation_history self ++ [user_message_item user_message] in
  let payload :=
    JObj [("input", JArr conversation_input);
          ("instructions", JStr (build_instructions self cwd));
          ("tools", JArr (build_tools_list self));
          ("max_output_tokens", JInt (max_tokens self));
          ("stream", JBool false);
          ("store", JBool false)] in
  match srv payload with
  | HttpJson body => Some body
  | HttpConnectionError => None
  | HttpTimeout => None
  | HttpStatusError _ _ => None
  | HttpOtherError _ => None
  end.

(** [item.get(...)] needs a dict. *)
Definition is_dict (v : value) : bool :=
  match v with
  | JObj _ => true
  | _ => false
  end.

(** *** The loop of [display_response], item by item

    What is printed is left out; what is kept is every operation of the loop
    that can raise: [get] on something that is no dict, a loop over
    something that cannot be iterated, [split] on something that is no
    str. *)

(** Lines 210-211, one annotation. *)
Definition display_annotation (annotation : value) : pyresult unit :=
  bind (get annotation "url" (JStr "")) (fun url_ =>
  bind (get annotation "title" url_) (fun _ => Returns tt)).

(** Lines 200-213, one content item of a message. *)
Definition display_message_content (content_item : value) : pyresult unit :=
  bind (get content_item "type" JNull) (fun t =>
  if eq_str t "output_text" then
    bind (get content_item "text" (JStr "")) (fun _ =>
    bind (get content_item "annotations" (JArr [])) (fun annotations =>
    if truthy annotations then
      bind (iterate annotations) (for_each display_annotation)
    else Returns tt))
  else Returns tt).

(** Lines 221-228, one content item of a reasoning item: [text.split]
    needs a str. *)
Definition display_reasoning_content (content_item : value) : pyresult unit :=
  bind (get content_item "type" JNull) (fun t =>
  if eq_str t "reasoning_text" then
    bind (get content_item "text" (JStr "")) (fun text =>
    match text with
    | JStr _ => Returns tt
    | _ => Raises (PyExn "AttributeError" "object has no attribute 'split'")
    end)
  else Returns tt).

(** Lines 258-260, one output of a code execution. *)
Definition display_code_output (output_item : value) : pyresult unit :=
  bind (get output_item "type" JNull) (fun _ => Returns tt).

(** Lines 270-275 and their two repetitions: the test [marker in arguments]
    and, when it holds, [arguments.split], which needs a str. *)
Definition display_files (marker : string) (arguments : value) : pyresult unit :=
  bind (str_in marker arguments) (fun present =>
  if present then
    match arguments with
    | JStr _ => Returns tt
    | _ => Raises (PyExn "AttributeError" "object has no attribute 'split'")
    end
  else Returns tt).

(** Lines 194-289, the body of the loop over [output]. *)
Definition display_item (item : value) : pyresult unit :=
  bind (get item "type" JNull) (fun item_type =>
  if eq_str item_type "message" then
    bind (get item "content" (JArr [])) (fun content =>
    bind (iterate content) (for_each display_message_content))
  else if eq_str item_type "reasoning" then
    bind (get item "content" (JArr [])) (fun content =>
    if truthy content then
      bind (iterate content) (for_each display_reasoning_content)
    else Returns tt)
  else if eq_str item_type "web_search_call" then
    bind (get item "action" (JObj [])) (fun action =>
    bind (get action "type" JNull) (fun _ => Returns tt))
  else if eq_str item_type "code_interpreter_call" then
    bind (get item "code" (JStr "")) (fun _ =>
    bind (get item "outputs" (JArr [])) (fun outputs =>
    if truthy outputs then
      bind (iterate outputs) (for_each display_code_output)
    else Returns tt))
  else if eq_str item_type "function_call" then
    bind (get item "name" (JStr "")) (fun name =>
    bind (get item "arguments" (JStr "")) (fun arguments =>
    if eq_str name "apply_patch" then
      bind (display_files "Add File:" arguments) (fun _ =>
      bind (display_files "Update File:" arguments) (fun _ =>
      display_files "Delete File:" arguments))
    else Returns tt))
  else Returns tt).

(** Lines 193-289: the loop over the items of [output]. *)
Definition display_output (output : list value) : pyresult unit :=
  for_each display_item output.

(** [display_response]: a falsy response is ignored; otherwise
    [output = response.get("output", [])] is shown item by item and the
    history is then extended with the items of [output] (line 292). Whatever
    the loop raises, it raises before the history is touched. *)
Definition display_response (self : client) (response : value) : pyresult client :=
  if negb (truthy response) then Returns self else
  bind (get response "output" (JArr [])) (fun output =>
  bind (iterate output) (fun items =>
  bind (display_output items) (fun _ =>
  Returns (set_history self (conversation_history self ++ items))))).

(** What the terminal delivers during one pass through the loop body of
    [run]. Ctrl-C is taken at the two calls on which the program waits,
    [input()] and [requests.post]:
    - [InputLine s]: [input()] returns [s], and no Ctrl-C arrives before
      the next prompt;
    - [InputEOF]: [input()] raises [EOFError];
    - [InputInterrupt]: Ctrl-C at the prompt, [input()] raises
      [KeyboardInterrupt];
    - [InputLineInterrupted s]: [input()] returns [s], and Ctrl-C arrives
      while the request made for [s] is underway; when [s] leads to no
      request, it arrives at the next prompt.
    A Ctrl-C that arrives between two other statements of the loop body
    is not modelled. *)
Inductive input_event : Type :=
| InputLine (s : string)
| InputEOF
| InputInterrupt
| InputLineInterrupted (s : string).

(** How one pass through the [while True] body ends. *)
Inductive control : Type := Continue | Break | Crash (e : pyexn).

(** The part of the loop body after the command handling (lines 367-388):
    append the user message, send, then display or pop; [cwd] is what
    [os.getcwd()] returned during [send_message], which returns. *)
Definition message_turn (self : client) (cwd : string) (srv : server)
    (user_input : string) : client * control :=
  let self1 := set_history self (conversation_history self ++ [user_message_item user_input]) in
  match send_message self1 cwd srv user_input with
  | Some response =>
      if truthy response then
        match display_response self1 response with
        | Returns self2 => (self2, Continue)
        | Raises e => (self1, Crash e)
        end
      else
        match pop (conversation_history self1) with
        | Returns h => (set_history self1 h, Continue)
        | Raises e => (self1, Crash e)
        end
  | None =>
      match pop (conversation_history self1) with
      | Returns h => (set_history self1 h, Continue)
      | Raises e => (self1, Crash e)
      end
  end.

(** The loop body from the line read on (lines 328-388). [getcwd] is what
    [os.getcwd()] does when [send_message] calls it: the exception it raises
    is caught nowhere and ends [run], after the user message was appended.
    With [interrupted], Ctrl-C arrives during the request: the handler of
    line 390 goes on with the loop, and the user message, appended before
    the request, stays in the history, neither answered nor removed. *)
Definition line_turn (self : client) (getcwd : pyresult string) (srv : server)
    (raw : string) (interrupted : bool) : client * control :=
  let user_input := strip raw in
  if String.eqb user_input "" then (self, Continue)
  else if startswith "/" user_input then
    let command := lower user_input in
    if String.eqb command "/exit" || String.eqb command "/quit" then (self, Break)
    else if String.eqb command "/clear" then (set_history self [], Continue)
    else (self, Continue)
  else
    let self1 :=
      set_history self (conversation_history self ++ [user_message_item user_input]) in
    match getcwd with
    | Raises e => (self1, Crash e)
    | Returns cwd =>
        if interrupted then (self1, Continue)
        else message_turn self cwd srv user_input
    end.

(** One pass through the loop body of [run]. *)
Definition run_iteration (self : client) (getcwd : pyresult string) (srv : server)
    (ev : input_event) : client * control :=
  match ev with
  | InputEOF => (self, Break)
  | InputInterrupt => (self, Continue)
  | InputLine raw => line_turn self getcwd srv raw false
  | InputLineInterrupted raw => line_turn self getcwd srv raw true
  end.

(** The [while True] loop of [run] (lines 323-397) over what the terminal
    delivers, until a break or a crash; [getcwd n] is what [os.getcwd()]
    does when it is called in the pass that follows [n] passes. *)
Fixpoint chat_loop (self : client) (getcwd : nat -> pyresult string) (srv : server)
    (inputs : list input_event) : client * control :=
  match inputs with
  | [] => (self, Continue)
  | ev :: rest =>
      match run_iteration self (getcwd 0) srv ev with
      | (self', Continue) => chat_loop self' (fun n => getcwd (S n)) srv rest
      | stop => stop
      end
  end.

(** [run]: the welcome text (lines 297-321), for which [os.getcwd()] is
    called once (line 301), then the loop. [getcwd 0] is what that first
    call does, [getcwd (S n)] what the call of pass [n] of the loop does. *)
Definition run (self : client) (getcwd : nat -> pyresult string) (srv : server)
    (inputs : list input_event) : client * control :=
  match getcwd 0 with
  | Raises e => (self, Crash e)
  | Returns _ => chat_loop self (fun n => getcwd (S n)) srv inputs
  end.

(** *** The constructor, the payload and the terminal output *)

(** [ChatClient.__init__] *)
Definition __init__ (api_url_ : string) (enable_file_editing_ enable_web_search_ : bool)
    (max_tokens_ : Z) (instructions : option string) : client :=
  {| api_url := rstrip_char "/" api_url_;
     enable_file_editing := enable_file_editing_;
     enable_web_search := enable_web_search_;
     max_tokens := max_tokens_;
     custom_instructions := instructions;
     conversation_history := [] |}.

(** Line 160: the address [send_message] posts to. *)
Definition endpoint (self : client) : string := api_url self +:+ "/v1/responses".

(** Lines 137-155: the payload [send_message] posts. *)
Definition request_payload (self : client) (cwd : string) (user_message : string)
  : value :=
  JObj [("input", JArr (conversation_history self ++ [user_message_item user_message]));
        ("instructions", JStr (build_instructions self cwd));
        ("tools", JArr (build_tools_list self));
        ("max_output_tokens", JInt (max_tokens self));
        ("stream", JBool false);
        ("store", JBool false)].

(** The ANSI codes of class [Colors] that the functions below use. *)
Module Colors.
Definition ESC : ascii := "027"%char.
Definition RESET : string := String ESC "[0m".
Definition BOLD : string := String ESC "[1m".
Definition DIM : string := String ESC "[2m".
Definition CYAN : string := String ESC "[36m".
End Colors.

(** [print_colored]: the line it prints. *)
Definition print_colored (text color : string) (bold dim : bool) : string :=
  let prefix := (if bold then Colors.BOLD else "") +:+
                (if dim then Colors.DIM else "") +:+ color in
  prefix +:+ text +:+ Colors.RESET.

(** [print_separator] *)
Definition print_separator (char : string) (width : Z) : string :=
  print_colored (times char (Z.to_nat width)) Colors.DIM false false.

(** The three rows of the box [print_header] draws, without their colour
    codes. *)
Definition header_box (text : string) : list string :=
  ["╭" +:+ times "─" (len text + 2) +:+ "╮";
   "│ " +:+ text +:+ " │";
   "╰" +:+ times "─" (len text + 2) +:+ "╯"].

(** [print_header]: the lines it prints, the empty line of [print()]
    first. *)
Definition print_header (text : string) : list string :=
  match header_box text with
  | [top; middle; bottom] =>
      [""; print_colored top Colors.CYAN false false;
       print_colored middle Colors.CYAN true false;
       print_colored bottom Colors.CYAN false false]
  | _ => []
  end.

(** Lines 224-227: the abbreviated reasoning text [display_response]
    shows. *)
Definition reasoning_preview (text : string) : string :=
  let lines := split "010" text in
  let first := hd "" lines in
  let preview := slice_to 100 first in
  if (1 <? length lines)%nat || (100 <? len first)%nat then preview +:+ "..."
  else preview.

End ChatClient.

(** ** src/chat_client.py: the simple chat client *)
Module SimpleChatClient.
Import Py Json.

Definition API_URL : string := "http://127.0.0.1:8000/v1/responses".

(** Lines 24-38 of [chat]: the payload; the key [tools] is set only when a
    tool is enabled. *)
Definition chat_payload (message : string) (use_web_search use_python : bool)
    (reasoning_effort : string) : value :=
  let tools :=
    ((if use_web_search then [JObj [("type", JStr "web_search")]] else []) ++
     (if use_python then [JObj [("type", JStr "code_interpreter")]] else []))%list in
  JObj ([("input", JStr message);
         ("reasoning", JObj [("effort", JStr reasoning_effort)]);
         ("stream", JBool false)] ++
        match tools with
        | [] => []
        | _ => [("tools", JArr tools)]
        end)%list.

(** What [requests.post], [raise_for_status] and [response.json] come to:
    the decoded body, a [RequestException] (connection, timeout, HTTP status,
    undecodable body), or an exception of another class. *)
Inductive post_outcome : Type :=
| PostJson (data : value)
| PostRequestException
| PostException (e : pyexn).

(** The remote service: payload to outcome. *)
Definition server := value -> post_outcome.

(** Lines 57-63, one item of the first loop. *)
Definition show_search (item : value) : pyresult unit :=
  bind (get item "type" JNull) (fun t =>
  if eq_str t "web_search_call" then
    bind (get item "action" (JObj [])) (fun action =>
    bind (get action "type" JNull) (fun _ => Returns tt))
  else Returns tt).

(** Lines 72-74, one output of a code execution. *)
Definition show_code_output (out : value) : pyresult unit :=
  bind (get out "type" JNull) (fun _ => Returns tt).

(** Lines 66-74, one item of the second loop: [outputs] is iterated
    whatever it is. *)
Definition show_code (item : value) : pyresult unit :=
  bind (get item "type" JNull) (fun t =>
  if eq_str t "code_interpreter_call" then
    bind (get item "code" (JStr "")) (fun _ =>
    bind (get item "outputs" (JArr [])) (fun outputs =>
    bind (iterate outputs) (for_each show_code_output)))
  else Returns tt).

(** Lines 89-90, one annotation. *)
Definition show_annotation (ann : value) : pyresult unit :=
  bind (get ann "type" JNull) (fun _ => Returns tt).

(** Lines 81-90, one content part of an assistant message. *)
Definition show_content (c : value) : pyresult unit :=
  bind (get c "type" JNull) (fun t =>
  if eq_str t "output_text" then
    bind (get c "annotations" (JArr [])) (fun annotations =>
    if truthy annotations then
      bind (iterate annotations) (for_each show_annotation)
    else Returns tt)
  else Returns tt).

(** Lines 77-90, one item of the third loop. *)
Definition show_message (item : value) : pyresult unit :=
  bind (get item "type" JNull) (fun t =>
  if eq_str t "message" then
    bind (get item "role" JNull) (fun r =>
    if eq_str r "assistant" then
      bind (get item "content" (JArr [])) (fun content =>
      bind (iterate content) (for_each show_content))
    else Returns tt)
  else Returns tt).

(** Lines 48-97: what [chat] does with the decoded body. What is printed is
    left out; what is kept is every operation that can raise. *)
Definition show (data : value) : pyresult unit :=
  bind (get data "output" (JArr [])) (fun output =>
  bind (iterate output) (fun items =>
  bind (for_each show_search items) (fun _ =>
  bind (for_each show_code items) (fun _ =>
  bind (for_each show_message items) (fun _ =>
  bind (get data "usage" (JObj [])) (fun usage =>
  if truthy usage then
    bind (get usage "input_tokens" JNull) (fun _ => Returns tt)
  else Returns tt)))))).

(** [chat]: the decoded body, [None] after a [RequestException]; any other
    exception leaves the function. *)
Definition chat (srv : server) (message : string) (use_web_search use_python : bool)
    (reasoning_effort : string) : pyresult (option value) :=
  match srv (chat_payload message use_web_search use_python reasoning_effort) with
  | PostJson data => bind (show data) (fun _ => Returns (Some data))
  | PostRequestException => Returns None
  | PostException e => Raises e
  end.

(** The local variables of [interactive_mode]. *)
Record mode := { use_web : bool; use_py : bool; effort : string }.

(** Lines 119-121. *)
Definition initial_mode : mode :=
  {| use_web := false; use_py := false; effort := "low" |}.

(** One pass through the loop body of [interactive_mode]: the variables
    after it, whether the loop goes on, and the payloads posted during it.
    [EOFError] is an [Exception] and is caught by the last handler, which
    lets the loop go on; [KeyboardInterrupt] ends the loop, at the prompt
    or during the request, which [chat] has posted by then and whose answer
    it never sees (line 99 catches a [RequestException] only). *)
Definition interactive_step (srv : server) (st : mode)
    (ev : ChatClient.input_event) : mode * bool * list value :=
  match ev with
  | ChatClient.InputInterrupt => (st, false, [])
  | ChatClient.InputEOF => (st, true, [])
  | ChatClient.InputLineInterrupted raw =>
      let user_input := strip raw in
      if String.eqb user_input "" then (st, false, [])
      else if startswith "/" user_input then
        let cmd := lower user_input in
        if String.eqb cmd "/quit" then (st, false, [])
        else if String.eqb cmd "/web" then
          ({| use_web := true; use_py := use_py st; effort := effort st |}, false, [])
        else if String.eqb cmd "/python" then
          ({| use_web := use_web st; use_py := true; effort := effort st |}, false, [])
        else if String.eqb cmd "/both" then
          ({| use_web := true; use_py := true; effort := effort st |}, false, [])
        else if String.eqb cmd "/high" then
          ({| use_web := use_web st; use_py := use_py st; effort := "high" |}, false, [])
        else if String.eqb cmd "/medium" then
          ({| use_web := use_web st; use_py := use_py st; effort := "medium" |}, false, [])
        else if String.eqb cmd "/low" then
          ({| use_web := use_web st; use_py := use_py st; effort := "low" |}, false, [])
        else (st, false, [])
      else (st, false, [chat_payload user_input (use_web st) (use_py st) (effort st)])
  | ChatClient.InputLine raw =>
      let user_input := strip raw in
      if String.eqb user_input "" then (st, true, [])
      else if startswith "/" user_input then
        let cmd := lower user_input in
        if String.eqb cmd "/quit" then (st, false, [])
        else if String.eqb cmd "/web" then
          ({| use_web := true; use_py := use_py st; effort := effort st |}, true, [])
        else if String.eqb cmd "/python" then
          ({| use_web := use_web st; use_py := true; effort := effort st |}, true, [])
        else if String.eqb cmd "/both" then
          ({| use_web := true; use_py := true; effort := effort st |}, true, [])
        else if String.eqb cmd "/high" then
          ({| use_web := use_web st; use_py := use_py st; effort := "high" |}, true, [])
        else if String.eqb cmd "/medium" then
          ({| use_web := use_web st; use_py := use_py st; effort := "medium" |}, true, [])
        else if String.eqb cmd "/low" then
          ({| use_web := use_web st; use_py := use_py st; effort := "low" |}, true, [])
        else (st, true, [])
      else
        let posted := [chat_payload user_input (use_web st) (use_py st) (effort st)] in
        match chat srv user_input (use_web st) (use_py st) (effort st) with
        | Returns _ =>
            ({| use_web := false; use_py := false; effort := effort st |}, true, posted)
        | Raises _ => (st, true, posted)
        end
  end.

(** The loop of [interactive_mode] over the inputs the terminal delivers:
    the variables at the end and every payload posted, in order. *)
Fixpoint interactive_loop (srv : server) (st : mode)
    (inputs : list ChatClient.input_event) : mode * list value :=
  match inputs with
  | [] => (st, [])
  | ev :: rest =>
      match interactive_step srv st ev with
      | (st', true, posted) =>
          let '(final, later) := interactive_loop srv st' rest in
          (final, posted ++ later)
      | (st', false, posted) => (st', posted)
      end
  end.

(** [interactive_mode] *)
Definition interactive_mode (srv : server) (inputs : list ChatClient.input_event)
  : mode * list value :=
  interactive_loop srv initial_mode inputs.

End SimpleChatClient.

(** ** The patch application engine (specification sections 3, 4 and 7)

    The engine's code, [apply_patch.apply_patch], is not among the source
    files: every definition of this module is modelled from the
    specification. *)
Module PatchEngine.
Import Py.

(** *** Section 3: data model *)

(** Modelled from the spec: the engine's [Hunk] (section 3). [hint] is the
    optional marker line of section 4.1, carried as metadata only. *)
Record Hunk := {
  hint : option string;
  context_before : list string;
  removed_lines : list string;
  added_lines : list string;
  context_after : list string
}.

(** Modelled from the spec: the engine's [FileOperation] (section 3). *)
Inductive FileOperation : Type :=
| AddFile (path : string) (content : string)
| UpdateFile (path : string) (hunks : list Hunk)
| DeleteFile (path : string).

(** Modelled from the spec: the engine's [Patch], an ordered sequence of
    operations (section 3). *)
Definition Patch := list FileOperation.

(** Modelled from the spec: the path an operation names (section 3). *)
Definition op_path (op : FileOperation) : string :=
  match op with
  | AddFile p _ => p
  | UpdateFile p _ => p
  | DeleteFile p => p
  end.

(** Modelled from the spec: the engine's error kinds (section 7). *)
Inductive PreconditionKind : Type := AlreadyExists | DoesNotExist | PathEscapesRoot.

(** Modelled from the spec: the reason of a failed operation: the error kinds
    of section 7, and the mark for the operations a failure aborts (section
    4.3). *)
Inductive reason : Type :=
| PreconditionError (kind : PreconditionKind) (path : string)
| ContextNotFound (hunk_index : nat) (path : string)
| AmbiguousMatch (hunk_index : nat) (candidates : list nat)
| IoError (path : string) (rollback_failures : list string)
| Aborted.

(** Modelled from the spec: the status of an [ApplyResult] (section 3). *)
Inductive status : Type := Success | Failed (r : reason).

(** Modelled from the spec: [ApplyResult] and [ApplyOutcome] (section 3). *)
Record ApplyResult := { operation : FileOperation; result_status : status }.
(** Modelled from the spec: [ApplyOutcome] (section 3). *)
Record ApplyOutcome := { committed : bool; results : list ApplyResult }.

(** Modelled from the spec: [ParseError{line, reason}] (section 4.1). *)
Record ParseError := { error_line : nat; error_reason : string }.

(** *** Lines and paths *)

(** Modelled from the spec: the newline that separates lines (section 4.1). *)
Definition LF : ascii := "010"%char.

(** Modelled from the spec: a text cut at every [sep]; joining the pieces
    with [sep] gives the text back. *)
Fixpoint split_on (sep : ascii) (s : string) : list string :=
  match s with
  | EmptyString => [EmptyString]
  | String c r =>
      if Ascii.eqb c sep then EmptyString :: split_on sep r
      else match split_on sep r with
           | l :: ls => String c l :: ls
           | [] => [String c EmptyString]
           end
  end.

(** Modelled from the spec: the lines of a text (section 4.2, [file_lines]). *)
Definition split_lines (s : string) : list string := split_on LF s.

(** Modelled from the spec: lines joined with newline (section 4.1, the
    content of an added file). *)
Fixpoint join_lines (l : list string) : string :=
  match l with
  | [] => ""
  | [x] => x
  | x :: r => x +:+ String LF (join_lines r)
  end.

(** Modelled from the spec: one step of resolving a path against the root
    (section 3, security invariant). The stack holds the components
    resolved so far, innermost first; a [..] that would leave the root
    stays on the stack. *)
Definition resolve_step (stack : list string) (comp : string) : list string :=
  if String.eqb comp "" || String.eqb comp "." then stack
  else if String.eqb comp ".." then
    match stack with
    | top :: rest => if String.eqb top ".." then comp :: stack else rest
    | [] => [comp]
    end
  else comp :: stack.

(** Modelled from the spec: a path resolved relative to the working
    directory, as the list of its components. *)
Definition norm_path (p : string) : list string :=
  List.rev (fold_left resolve_step (split_on "/" p) []).

(** Modelled from the spec: a path is refused when it is absolute or
    resolves outside the working directory (sections 3 and 7). *)
Definition escapes_root (p : string) : bool :=
  startswith "/" p || existsb (String.eqb "..") (norm_path p).

(** *** Section 4.1: the parser *)

(** Modelled from the spec: the literal header line (sections 4.1 and 6). *)
Definition header : string := "*** Begin Patch".
(** Modelled from the spec: the literal footer line (sections 4.1 and 6). *)
Definition footer : string := "*** End Patch".
(** Modelled from the spec: the add directive (section 6). *)
Definition add_directive : string := "*** Add File: ".
(** Modelled from the spec: the update directive (section 6). *)
Definition update_directive : string := "*** Update File: ".
(** Modelled from the spec: the delete directive (section 6). *)
Definition delete_directive : string := "*** Delete File: ".

(** Modelled from the spec: [s] without its first [n] characters. *)
Fixpoint drop_chars (n : nat) (s : string) : string :=
  match n, s with
  | O, _ => s
  | S n', String _ r => drop_chars n' r
  | S _, EmptyString => EmptyString
  end.

(** Modelled from the spec: what a line between the markers is. *)
Inductive line_kind : Type :=
| Footer
| DirAdd (path : string)
| DirUpdate (path : string)
| DirDelete (path : string)
| UnknownDirective
| Body.

(** Modelled from the spec: the kind of a line, by its prefix (section 4.1). *)
Definition classify (l : string) : line_kind :=
  if String.eqb l footer then Footer
  else if startswith add_directive l then DirAdd (drop_chars (String.length add_directive) l)
  else if startswith update_directive l then
    DirUpdate (drop_chars (String.length update_directive) l)
  else if startswith delete_directive l then
    DirDelete (drop_chars (String.length delete_directive) l)
  else if startswith "*** " l then UnknownDirective
  else Body.

(** Modelled from the spec: where a hunk under construction stands: only
    leading context so far, removals or additions seen, or context resumed
    after them. *)
Inductive phase : Type := Leading | Changing | Trailing.

(** Modelled from the spec: the states of the parser's state machine
    (section 4.1). [Closed] is the state after the footer, outside again. *)
Inductive pstate : Type :=
| Outside
| InPatch
| InAdd (path : string) (lines_rev : list string)
| InUpdateHunk (path : string) (hunks_rev : list Hunk) (cur : option (Hunk * phase))
| AfterDirective
| Closed.

(** Modelled from the spec: a hunk with no line yet (section 4.1). *)
Definition empty_hunk : Hunk :=
  {| hint := None; context_before := []; removed_lines := [];
     added_lines := []; context_after := [] |}.

(** Modelled from the spec: a context line before any removal or addition
    goes to [context_before] (section 4.1). *)
Definition add_context_before (h : Hunk) (l : string) : Hunk :=
  {| hint := hint h; context_before := context_before h ++ [l];
     removed_lines := removed_lines h; added_lines := added_lines h;
     context_after := context_after h |}.

(** Modelled from the spec: a line prefixed by a minus sign is a removed line
    (section 4.1). *)
Definition add_removed (h : Hunk) (l : string) : Hunk :=
  {| hint := hint h; context_before := context_before h;
     removed_lines := removed_lines h ++ [l]; added_lines := added_lines h;
     context_after := context_after h |}.

(** Modelled from the spec: a line prefixed by a plus sign is an added line
    (section 4.1). *)
Definition add_added (h : Hunk) (l : string) : Hunk :=
  {| hint := hint h; context_before := context_before h;
     removed_lines := removed_lines h; added_lines := added_lines h ++ [l];
     context_after := context_after h |}.

(** Modelled from the spec: a context line after a removal or an addition
    goes to [context_after] (section 4.1). *)
Definition add_context_after (h : Hunk) (l : string) : Hunk :=
  {| hint := hint h; context_before := context_before h;
     removed_lines := removed_lines h; added_lines := added_lines h;
     context_after := context_after h ++ [l] |}.

(** Modelled from the spec: a marker line opens a hunk and is kept as its hint
    (section 4.1). *)
Definition with_hint (l : string) : Hunk :=
  {| hint := Some l; context_before := []; removed_lines := [];
     added_lines := []; context_after := [] |}.

(** Modelled from the spec: failing with [ParseError{line, reason}] (section
    4.1). *)
Definition perr {A} (n : nat) (msg : string) : ParseError + A :=
  inl {| error_line := n; error_reason := msg |}.

(** Modelled from the spec: a hunk is complete once it has a removal or an
    addition; closing gives the finished hunks, newest first. *)
Definition close_hunk (n : nat) (hunks_rev : list Hunk) (cur : option (Hunk * phase))
  : ParseError + list Hunk :=
  match cur with
  | None => inr hunks_rev
  | Some (_, Leading) => perr n "hunk without a removed or an added line"
  | Some (h, _) => inr (h :: hunks_rev)
  end.

(** Modelled from the spec: the operation a body state has collected when
    the next directive or the footer arrives. *)
Definition close_pending (n : nat) (st : pstate) : ParseError + option FileOperation :=
  match st with
  | InAdd path lines_rev => inr (Some (AddFile path (join_lines (List.rev lines_rev))))
  | InUpdateHunk path hunks_rev cur =>
      match close_hunk n hunks_rev cur with
      | inl e => inl e
      | inr [] => perr n "update without a hunk"
      | inr hs => inr (Some (UpdateFile path (List.rev hs)))
      end
  | _ => inr None
  end.

(** Modelled from the spec: one line of an update's body, by its first
    character (section 4.1). *)
Definition hunk_line (n : nat) (path : string) (hunks_rev : list Hunk)
    (cur : option (Hunk * phase)) (l : string) : ParseError + pstate :=
  let start := match cur with Some (h, _) => h | None => empty_hunk end in
  let ph := match cur with Some (_, p) => p | None => Leading end in
  match l with
  | String c rest =>
      if Ascii.eqb c " " then
        match ph with
        | Leading => inr (InUpdateHunk path hunks_rev
                            (Some (add_context_before start rest, Leading)))
        | _ => inr (InUpdateHunk path hunks_rev
                      (Some (add_context_after start rest, Trailing)))
        end
      else if Ascii.eqb c "-" then
        match ph with
        | Trailing => inr (InUpdateHunk path (start :: hunks_rev)
                             (Some (add_removed empty_hunk rest, Changing)))
        | _ => inr (InUpdateHunk path hunks_rev (Some (add_removed start rest, Changing)))
        end
      else if Ascii.eqb c "+" then
        match ph with
        | Trailing => inr (InUpdateHunk path (start :: hunks_rev)
                             (Some (add_added empty_hunk rest, Changing)))
        | _ => inr (InUpdateHunk path hunks_rev (Some (add_added start rest, Changing)))
        end
      else
        match close_hunk n hunks_rev cur with
        | inl e => inl e
        | inr hs => inr (InUpdateHunk path hs (Some (with_hint l, Leading)))
        end
  | EmptyString =>
      match close_hunk n hunks_rev cur with
      | inl e => inl e
      | inr hs => inr (InUpdateHunk path hs (Some (with_hint l, Leading)))
      end
  end.

(** Modelled from the spec: the operations parsed so far (newest first) and
    the machine's state. *)
Record parser := { ops_rev : list FileOperation; state : pstate }.

(** Modelled from the spec: the path of a directive is already used by an
    earlier operation of the patch (section 3, unique paths). *)
Definition path_taken (ops : list FileOperation) (path : string) : bool :=
  bool_decide (norm_path path ∈ List.map (fun op => norm_path (op_path op)) ops).

(** Modelled from the spec: a directive line ends the operation before it
    and starts its own; paths are unique across one patch. *)
Definition start_operation (n : nat) (ops : list FileOperation) (k : line_kind)
  : ParseError + parser :=
  match k with
  | DirAdd p =>
      if String.eqb p "" then perr n "directive without a path"
      else if path_taken ops p then perr n "duplicate path"
      else inr {| ops_rev := ops; state := InAdd p [] |}
  | DirUpdate p =>
      if String.eqb p "" then perr n "directive without a path"
      else if path_taken ops p then perr n "duplicate path"
      else inr {| ops_rev := ops; state := InUpdateHunk p [] None |}
  | DirDelete p =>
      if String.eqb p "" then perr n "directive without a path"
      else if path_taken ops p then perr n "duplicate path"
      else inr {| ops_rev := DeleteFile p :: ops; state := AfterDirective |}
  | Footer =>
      match ops with
      | [] => perr n "empty patch"
      | _ => inr {| ops_rev := ops; state := Closed |}
      end
  | UnknownDirective => perr n "unknown directive"
  | Body => perr n "unknown directive"
  end.

(** Modelled from the spec: the machine's step on line number [n]. *)
Definition step (ps : parser) (n : nat) (l : string) : ParseError + parser :=
  match state ps with
  | Outside =>
      if String.eqb l header then inr {| ops_rev := []; state := InPatch |}
      else perr n "missing begin marker"
  | Closed => perr n "text after the end marker"
  | st =>
      match classify l with
      | Body =>
          match st with
          | InAdd path lines_rev =>
              inr {| ops_rev := ops_rev ps; state := InAdd path (l :: lines_rev) |}
          | InUpdateHunk path hunks_rev cur =>
              match hunk_line n path hunks_rev cur l with
              | inl e => inl e
              | inr st' => inr {| ops_rev := ops_rev ps; state := st' |}
              end
          | _ => perr n "unknown directive"
          end
      | UnknownDirective => perr n "unknown directive"
      | k =>
          match close_pending n st with
          | inl e => inl e
          | inr None => start_operation n (ops_rev ps) k
          | inr (Some op) => start_operation n (op :: ops_rev ps) k
          end
      end
  end.

(** Modelled from the spec: the single linear pass. *)
Fixpoint run_lines (ps : parser) (n : nat) (ls : list string) : ParseError + parser :=
  match ls with
  | [] => inr ps
  | l :: rest =>
      match step ps n l with
      | inl e => inl e
      | inr ps' => run_lines ps' (S n) rest
      end
  end.

(** Modelled from the spec: the lines of a patch text; the newline that ends
    the last line opens no further line. *)
Definition patch_lines (text : string) : list string :=
  match List.rev (split_lines text) with
  | EmptyString :: r => List.rev r
  | _ => split_lines text
  end.

(** Modelled from the spec: [parse(text) -> Patch], failing with a
    [ParseError] (section 4.1). *)
Definition parse (text : string) : ParseError + Patch :=
  let ls := patch_lines text in
  match run_lines {| ops_rev := []; state := Outside |} 1 ls with
  | inl e => inl e
  | inr ps =>
      match state ps with
      | Closed => inr (List.rev (ops_rev ps))
      | Outside => perr 1 "missing begin marker"
      | _ => perr (S (List.length ls)) "missing end marker"
      end
  end.

(** Modelled from the spec: a patch as the parser delivers it: not empty, and
    no two operations on the same file. *)
Definition op_key (op : FileOperation) : list string := norm_path (op_path op).

(** Modelled from the spec: the invariants of a parsed patch (sections 3 and
    4.1): not empty, paths unique. *)
Definition valid_patch (P : Patch) : Prop :=
  P <> [] /\ NoDup (List.map op_key P).

(** *** Section 4.2: the hunk matcher *)

(** Modelled from the spec: [MatchRange], the lines [m_start] (included)
    to [m_end] (excluded) of the file, and [MatchError] (section 4.2). *)
Record MatchRange := { m_start : nat; m_end : nat }.

(** Modelled from the spec: the two failures of [locate] (section 4.2, steps 4
    and 5). *)
Inductive MatchError : Type :=
| NotFound
| Ambiguous (candidates : list nat).

(** Modelled from the spec: the probe sequence (section 4.2, step 1). *)
Definition probe (h : Hunk) : list string := context_before h ++ removed_lines h.

(** Modelled from the spec: the two comparisons of lines, exact, and with
    trailing whitespace and line endings ignored (steps 2 and 3). *)
Definition exact_eq (a b : string) : bool := String.eqb a b.

(** Modelled from the spec: a line without its trailing whitespace and line
    ending (section 4.2, step 3). *)
Definition normalize (l : string) : string := rstrip l.

(** Modelled from the spec: the normalized comparison (section 4.2, step 3). *)
Definition normalized_eq (a b : string) : bool :=
  String.eqb (normalize a) (normalize b).

(** Modelled from the spec: the probe is a contiguous run at the head of
    [lines]. *)
Fixpoint matches_at (eq : string -> string -> bool) (pr lines : list string) : bool :=
  match pr, lines with
  | [], _ => true
  | p :: ps, l :: ls => eq p l && matches_at eq ps ls
  | _ :: _, [] => false
  end.

(** Modelled from the spec: the candidate locations of one pass, scanning
    from [start] onward. *)
Definition candidates (eq : string -> string -> bool) (file_lines pr : list string)
    (start : nat) : list nat :=
  List.filter (fun i => matches_at eq pr (drop i file_lines))
              (seq start (S (List.length file_lines) - start)).

(** Modelled from the spec: the range a probe found at line [i] occupies
    (section 4.2). *)
Definition range_at (i : nat) (pr : list string) : MatchRange :=
  {| m_start := i; m_end := i + List.length pr |}.

(** Modelled from the spec: [locate(file_lines, hunk, search_start_offset)]
    (section 4.2, steps 1 to 5). *)
Definition locate (file_lines : list string) (h : Hunk) (search_start_offset : nat)
  : MatchError + MatchRange :=
  match candidates exact_eq file_lines (probe h) search_start_offset with
  | [i] => inr (range_at i (probe h))
  | (_ :: _ :: _) as cs => inl (Ambiguous cs)
  | [] =>
      match candidates normalized_eq file_lines (probe h) search_start_offset with
      | [i] => inr (range_at i (probe h))
      | [] => inl NotFound
      | cs => inl (Ambiguous cs)
      end
  end.

(** Modelled from the spec: the hunks of one update matched in order
    against the file's lines, each search starting where the previous
    match ended (step 6); the rewritten lines of the file from [offset] on,
    and the matched ranges. *)
Fixpoint apply_hunks (path : string) (file_lines : list string) (hunks : list Hunk)
    (index offset : nat) : reason + (list string * list MatchRange) :=
  match hunks with
  | [] => inr (drop offset file_lines, [])
  | h :: rest =>
      match locate file_lines h offset with
      | inl NotFound => inl (ContextNotFound index path)
      | inl (Ambiguous cs) => inl (AmbiguousMatch index cs)
      | inr r =>
          match apply_hunks path file_lines rest (S index) (m_end r) with
          | inl e => inl e
          | inr (tail, ranges) =>
              inr (take (m_start r - offset) (drop offset file_lines)
                   ++ take (List.length (context_before h)) (drop (m_start r) file_lines)
                   ++ added_lines h ++ tail,
                   r :: ranges)
          end
      end
  end.

(** *** The working directory *)

(** Modelled from the spec: a filesystem access: the path as the patch wrote
    it, and for a mutation whether it succeeded. *)
Inductive event : Type :=
| EvStat (path : string)
| EvRead (path : string)
| EvWrite (path : string) (ok : bool)
| EvRemove (path : string) (ok : bool).

(** Modelled from the spec: the path an access is on. *)
Definition ev_path (ev : event) : string :=
  match ev with
  | EvStat p => p
  | EvRead p => p
  | EvWrite p _ => p
  | EvRemove p _ => p
  end.

(** Modelled from the spec: the accesses that create, modify or delete a file
    (section 4.3). *)
Definition is_mutation (ev : event) : bool :=
  match ev with
  | EvWrite _ _ => true
  | EvRemove _ _ => true
  | _ => false
  end.

(** Modelled from the spec: the working directory as the engine sees it.
    [files] maps a resolved path to the file's content. [faults] is the
    environment of section 4.3: its n-th entry tells whether the n-th
    write or removal attempted from now on fails (none fails once the
    list is used up). [trace] records every access. *)
Record fs_state := {
  files : gmap (list string) string;
  faults : list bool;
  trace : list event
}.

(** Modelled from the spec: the engine's computations: state passing over the
    working directory. *)
Definition M (A : Type) : Type := fs_state -> A * fs_state.

(** Modelled from the spec: a computation that only returns. *)
Definition ret {A} (a : A) : M A := fun st => (a, st).

(** Modelled from the spec: sequencing of two computations on the working
    directory. *)
Definition bindM {A B} (c : M A) (k : A -> M B) : M B :=
  fun st => let '(a, st') := c st in k a st'.

Notation "'do' x <- c ; k" := (bindM c (fun x => k))
  (at level 10, x name, c at level 100, k at level 200).

(** Modelled from the spec: recording one access in the trace. *)
Definition log (ev : event) (st : fs_state) : fs_state :=
  {| files := files st; faults := faults st; trace := trace st ++ [ev] |}.

(** Modelled from the spec: does the file exist? *)
Definition stat (p : string) : M bool :=
  fun st => (bool_decide (is_Some (files st !! norm_path p)), log (EvStat p) st).

(** Modelled from the spec: the content of the file, if it exists. *)
Definition read_file (p : string) : M (option string) :=
  fun st => (files st !! norm_path p, log (EvRead p) st).

(** Modelled from the spec: a mutation of one file. *)
Inductive action : Type :=
| ActWrite (path : string) (content : string)
| ActRemove (path : string).

(** Modelled from the spec: the path a mutation is on (section 4.3). *)
Definition action_path (a : action) : string :=
  match a with
  | ActWrite p _ => p
  | ActRemove p => p
  end.

(** Modelled from the spec: the effect of a successful mutation on the files
    (section 4.3, commit phase). *)
Definition perform (a : action) (f : gmap (list string) string)
  : gmap (list string) string :=
  match a with
  | ActWrite p c => <[norm_path p := c]> f
  | ActRemove p => delete (norm_path p) f
  end.

(** Modelled from the spec: the access a mutation leaves in the trace. *)
Definition action_event (a : action) (ok : bool) : event :=
  match a with
  | ActWrite p _ => EvWrite p ok
  | ActRemove p => EvRemove p ok
  end.

(** Modelled from the spec: one write or removal; it fails, leaving the
    files as they are, when the environment says so. *)
Definition attempt (a : action) : M bool :=
  fun st =>
    match faults st with
    | true :: rest =>
        (false, {| files := files st; faults := rest;
                   trace := trace st ++ [action_event a false] |})
    | false :: rest =>
        (true, {| files := perform a (files st); faults := rest;
                  trace := trace st ++ [action_event a true] |})
    | [] =>
        (true, {| files := perform a (files st); faults := [];
                  trace := trace st ++ [action_event a true] |})
    end.

(** *** Section 4.3: the apply engine *)

(** Modelled from the spec: what validation prepares for an operation: the
    mutation that commits it, and the one that undoes it. *)
Record prepared := {
  p_op : FileOperation;
  p_action : action;
  p_undo : action
}.

(** Modelled from the spec: validation of one operation (section 4.3). The
    path is checked first; then existence; an update's hunks are matched
    against the content on disk and the rewritten content computed. *)
Definition validate_op (op : FileOperation) : M (reason + prepared) :=
  if escapes_root (op_path op) then
    ret (inl (PreconditionError PathEscapesRoot (op_path op)))
  else
    match op with
    | AddFile p c =>
        do e <- stat p;
        if e then ret (inl (PreconditionError AlreadyExists p))
        else ret (inr {| p_op := op; p_action := ActWrite p c; p_undo := ActRemove p |})
    | DeleteFile p =>
        do e <- stat p;
        if e then
          do o <- read_file p;
          match o with
          | Some orig =>
              ret (inr {| p_op := op; p_action := ActRemove p;
                          p_undo := ActWrite p orig |})
          | None => ret (inl (PreconditionError DoesNotExist p))
          end
        else ret (inl (PreconditionError DoesNotExist p))
    | UpdateFile p hunks =>
        do e <- stat p;
        if e then
          do o <- read_file p;
          match o with
          | Some orig =>
              match apply_hunks p (split_lines orig) hunks 0 0 with
              | inl r => ret (inl r)
              | inr (new_lines, _) =>
                  ret (inr {| p_op := op; p_action := ActWrite p (join_lines new_lines);
                              p_undo := ActWrite p orig |})
              end
          | None => ret (inl (PreconditionError DoesNotExist p))
          end
        else ret (inl (PreconditionError DoesNotExist p))
    end.

(** Modelled from the spec: the validation phase; it stops at the first
    operation that fails, giving its index and reason. *)
Fixpoint validate_all (ops : list FileOperation) : M ((nat * reason) + list prepared) :=
  match ops with
  | [] => ret (inr [])
  | op :: rest =>
      do v <- validate_op op;
      match v with
      | inl r => ret (inl (0, r))
      | inr p =>
          do vs <- validate_all rest;
          match vs with
          | inl (i, r) => ret (inl (S i, r))
          | inr ps => ret (inr (p :: ps))
          end
      end
  end.

(** Modelled from the spec: best-effort rollback of the operations already
    committed, the latest first; the paths whose undo failed are
    reported. *)
Fixpoint rollback (done : list prepared) : M (list string) :=
  match done with
  | [] => ret []
  | p :: rest =>
      do ok <- attempt (p_undo p);
      do failures <- rollback rest;
      ret (if ok then failures else action_path (p_undo p) :: failures)
  end.

(** Modelled from the spec: the commit phase. [done] holds what has been
    committed, the latest first. A failed mutation triggers the rollback;
    the result is then the index and path of the failed operation and the
    rollback failures. *)
Fixpoint commit_loop (ps done : list prepared) : M (option (nat * string * list string)) :=
  match ps with
  | [] => ret None
  | p :: rest =>
      do ok <- attempt (p_action p);
      if ok then commit_loop rest (p :: done)
      else
        do failures <- rollback done;
        ret (Some (List.length done, action_path (p_action p), failures))
  end.

(** Modelled from the spec: the results of a patch that was not committed:
    operation [i] carries the reason, the others are marked as aborted. *)
Definition abort_results (patch : Patch) (i : nat) (r : reason) : list ApplyResult :=
  imap (fun j op => {| operation := op;
                       result_status := Failed (if Nat.eqb j i then r else Aborted) |})
       patch.

(** Modelled from the spec: the results of a committed patch (section 4.3). *)
Definition success_results (patch : Patch) : list ApplyResult :=
  List.map (fun op => {| operation := op; result_status := Success |}) patch.

(** Modelled from the spec: the first operation of a patch whose path
    leaves the working directory, with its index. Paths are checked for the
    whole patch before any access to the filesystem (section 8). *)
Fixpoint first_escaping (ops : list FileOperation) : option (nat * string) :=
  match ops with
  | [] => None
  | op :: rest =>
      if escapes_root (op_path op) then Some (0, op_path op)
      else match first_escaping rest with
           | Some (i, p) => Some (S i, p)
           | None => None
           end
  end.

(** Modelled from the spec: [apply(patch, working_directory)], two-phase
    and all-or-nothing (section 4.3). A path that escapes the working
    directory fails the patch before anything is looked at; then comes
    the validation phase, then the commit phase. *)
Definition apply (patch : Patch) : M ApplyOutcome :=
  match first_escaping patch with
  | Some (i, path) =>
      ret {| committed := false;
             results := abort_results patch i (PreconditionError PathEscapesRoot path) |}
  | None =>
      do v <- validate_all patch;
      match v with
      | inl (i, r) => ret {| committed := false; results := abort_results patch i r |}
      | inr ps =>
          do c <- commit_loop ps [];
          match c with
          | None => ret {| committed := true; results := success_results patch |}
          | Some (i, path, failures) =>
              ret {| committed := false;
                     results := abort_results patch i (IoError path failures) |}
          end
      end
  end.

(** Modelled from the spec: the rollback failures an outcome reports. *)
Definition rollback_failures (out : ApplyOutcome) : list string :=
  List.concat (List.map (fun r => match result_status r with
                                  | Failed (IoError _ fs) => fs
                                  | _ => []
                                  end) (results out)).

(** *** Section 4.4: the result reporter *)

(** Modelled from the spec: the text of a precondition failure (sections 4.4 and
    7). *)
Definition render_kind (k : PreconditionKind) : string :=
  match k with
  | AlreadyExists => "file already exists"
  | DoesNotExist => "file does not exist"
  | PathEscapesRoot => "path escapes the working directory"
  end.

(** Modelled from the spec: the text of a failure reason (section 4.4). *)
Definition render_reason (r : reason) : string :=
  match r with
  | PreconditionError k p => "precondition failed: " +:+ render_kind k +:+ ": " +:+ p
  | ContextNotFound i p => "context not found: hunk " +:+ pretty i +:+ " of " +:+ p
  | AmbiguousMatch i cs =>
      "ambiguous match: hunk " +:+ pretty i +:+ " at lines "
        +:+ ChatClient.join ", " (List.map pretty cs)
  | IoError p fs =>
      "i/o error: " +:+ p +:+
      match fs with
      | [] => ""
      | _ => "; rollback failed for " +:+ ChatClient.join ", " fs
      end
  | Aborted => "aborted: prior validation error"
  end.

(** Modelled from the spec: kind and path of an operation, as reported
    (section 4.4). *)
Definition render_op (op : FileOperation) : string :=
  match op with
  | AddFile p _ => "add " +:+ p
  | UpdateFile p _ => "update " +:+ p
  | DeleteFile p => "delete " +:+ p
  end.

(** Modelled from the spec: the report line of one operation (section 4.4). *)
Definition render_result (r : ApplyResult) : string :=
  render_op (operation r) +:+ ": " +:+
  match result_status r with
  | Success => "ok"
  | Failed rs => render_reason rs
  end.

(** Modelled from the spec: the result that carries the fatal reason (section
    4.4). *)
Definition is_fatal (r : ApplyResult) : bool :=
  match result_status r with
  | Failed Aborted => false
  | Failed _ => true
  | Success => false
  end.

(** Modelled from the spec: [render(outcome)], one line per operation and
    a final line (section 4.4). *)
Definition render (out : ApplyOutcome) : string :=
  join_lines
    (List.map render_result (results out) ++
     [if committed out then "patch applied"
      else match List.find is_fatal (results out) with
           | Some r => "patch not applied: " +:+ render_result r
           | None => "patch not applied"
           end]).

(** Modelled from the spec: the report of a [ParseError] (sections 4.1 and
    7). *)
Definition render_parse_error (e : ParseError) : string :=
  "parse error at line " +:+ pretty (error_line e) +:+ ": " +:+ error_reason e.

(** Modelled from the spec: the parser as a stage of the engine. *)
Definition parse_stage (text : string) : M (ParseError + Patch) := ret (parse text).

(** Modelled from the spec: the boundary of section 6,
    [apply(text, working_directory) -> summary]. *)
Definition apply_patch (text : string) : M string :=
  do r <- parse_stage text;
  match r with
  | inl e => ret (render_parse_error e)
  | inr patch => do out <- apply patch; ret (render out)
  end.

(** Modelled from the spec: the engine as the adapter calls it, on a given
    working directory: a summary for every text, a [TypeError] for an argument
    that is no text. *)
Definition as_adapter_engine (st : fs_state) : ApplyPatchTool.engine :=
  fun v => match v with
           | Json.JStr text => Returns (fst (apply_patch text st))
           | _ => Raises (PyExn "TypeError" "patch text must be a string")
           end.

(** *** Notions the properties of the engine are stated with *)

(** The specification's words: the probe occurs verbatim at line [i] of
    the file. *)
Definition occurs_verbatim_at (file_lines pr : list string) (i : nat) : Prop :=
  i <= List.length file_lines /\ take (List.length pr) (drop i file_lines) = pr.

(** The probe occurs at line [i] up to trailing whitespace and line
    endings. *)
Definition occurs_normalized_at (file_lines pr : list string) (i : nat) : Prop :=
  i <= List.length file_lines /\
  List.map normalize (take (List.length pr) (drop i file_lines)) = List.map normalize pr.

(** The offset at which the search for hunk number [k] of an update
    starts: [offset] for the first, the end of the previous hunk's matched
    range for the others. *)
Definition search_start (offset : nat) (ranges : list MatchRange) (k : nat) : nat :=
  match k with
  | O => offset
  | S k' => match ranges !! k' with Some r => m_end r | None => offset end
  end.

(** A step of the engine that only looks: the files and the environment's
    faults are as before, and every access it adds to the trace is a check
    or a read of a path inside the working directory. *)
Definition reads_only (st st' : fs_state) : Prop :=
  files st' = files st /\ faults st' = faults st /\
  exists evs, trace st' = trace st ++ evs /\
              Forall (fun ev => is_mutation ev = false /\
                                escapes_root (ev_path ev) = false) evs.

(** What validation prepares for [op] on the files [f0]. *)
Definition prepared_for (f0 : gmap (list string) string) (op : FileOperation)
    (p : prepared) : Prop :=
  p_op p = op /\ escapes_root (op_path op) = false /\
  match op with
  | AddFile path c =>
      f0 !! norm_path path = None /\
      p_action p = ActWrite path c /\ p_undo p = ActRemove path
  | DeleteFile path =>
      exists orig, f0 !! norm_path path = Some orig /\
                   p_action p = ActRemove path /\ p_undo p = ActWrite path orig
  | UpdateFile path hunks =>
      exists orig new_lines ranges,
        f0 !! norm_path path = Some orig /\
        apply_hunks path (split_lines orig) hunks 0 0 = inr (new_lines, ranges) /\
        p_action p = ActWrite path (join_lines new_lines) /\
        p_undo p = ActWrite path orig
  end.

(** The specification's words: operation [op] of a patch is committed, the files
    going from [f0] to [f']. *)
Definition committed_in (f0 f' : gmap (list string) string) (op : FileOperation) : Prop :=
  match op with
  | AddFile path c => f0 !! norm_path path = None /\ f' !! norm_path path = Some c
  | DeleteFile path => is_Some (f0 !! norm_path path) /\ f' !! norm_path path = None
  | UpdateFile path hunks =>
      exists orig new_lines ranges,
        f0 !! norm_path path = Some orig /\
        apply_hunks path (split_lines orig) hunks 0 0 = inr (new_lines, ranges) /\
        f' !! norm_path path = Some (join_lines new_lines)
  end.

(** The specification's words: the patch is fully committed. *)
Definition fully_committed (f0 f' : gmap (list string) string) (patch : Patch) : Prop :=
  Forall (committed_in f0 f') patch /\
  forall k, ~ In k (List.map op_key patch) -> f' !! k = f0 !! k.

(** All the mutations of a validated patch, in order. *)
Definition commit_all (ps : list prepared) (f : gmap (list string) string)
  : gmap (list string) string :=
  fold_left (fun f p => perform (p_action p) f) ps f.

(** All the undo mutations of the operations in [done], in order. *)
Definition undo_all (done : list prepared) (f : gmap (list string) string)
  : gmap (list string) string :=
  fold_left (fun f p => perform (p_undo p) f) done f.

(** The parser's invariant: the operations read so far are on distinct
    files, the operation being read is on yet another one, and the
    machine closes only on a patch that is not empty. *)
Definition parser_inv (ps : parser) : Prop :=
  NoDup (List.map op_key (ops_rev ps)) /\
  match state ps with
  | InAdd path _ => ~ In (norm_path path) (List.map op_key (ops_rev ps))
  | InUpdateHunk path _ _ => ~ In (norm_path path) (List.map op_key (ops_rev ps))
  | Closed => ops_rev ps <> []
  | _ => True
  end.

(** *** Concrete working directories and patches for the examples *)

(** The empty directory of section 8. *)
Definition empty_dir : fs_state := {| files := ∅; faults := []; trace := [] |}.

(** A directory holding [a.txt] with the three lines x, y, z. *)
Definition dir_with_a : fs_state :=
  {| files := {[ ["a.txt"] := join_lines ["x"; "y"; "z"; ""] ]};
     faults := []; trace := [] |}.

(** An empty directory in which the second and the third mutation fail. *)
Definition failing_dir : fs_state :=
  {| files := ∅; faults := [false; true; true]; trace := [] |}.

(** The patch of the first scenario of section 8. *)
Definition add_notes : Patch := [AddFile "notes.txt" (join_lines ["hello"; ""])].

(** A patch of two additions. *)
Definition add_two : Patch := [AddFile "a.txt" "1"; AddFile "b.txt" "2"].

(** A patch whose second operation escapes the working
    directory (section 8). *)
Definition add_then_escape : Patch :=
  [AddFile "n.txt" "hello"; DeleteFile "../../etc/passwd"].

(** The hunk of section 8: context x, remove y, add y2, trailing context z. *)
Definition hunk_y : Hunk :=
  {| hint := None; context_before := ["x"]; removed_lines := ["y"];
     added_lines := ["y2"]; context_after := ["z"] |}.

(** A hunk without context that removes a line y. *)
Definition hunk_bare_y : Hunk :=
  {| hint := None; context_before := []; removed_lines := ["y"];
     added_lines := ["y2"]; context_after := [] |}.

(** A directory holding [a.txt] with the four lines x, y, z, y. *)
Definition dir_with_two_y : fs_state :=
  {| files := {[ ["a.txt"] := join_lines ["x"; "y"; "z"; "y"] ]};
     faults := []; trace := [] |}.

(** A hunk that replaces z, to follow [hunk_y]. *)
Definition hunk_z : Hunk :=
  {| hint := None; context_before := []; removed_lines := ["z"];
     added_lines := ["z2"]; context_after := [] |}.


End PatchEngine.

(* ===================================================================== *)
(** * Part II. Theorems                                                    *)
(* ===================================================================== *)

Module GoogleBackendFacts.
Import Py GoogleBackend.

Lemma search_request_sent env query topn k c :
  GOOGLE_KEY env = Some k -> k <> "" ->
  GOOGLE_CX env = Some c -> c <> "" ->
  exists req, search_request env query topn = Returns req.
Proof.
  intros Hk Hk' Hc Hc'. unfold search_request, _get_api_key, _get_cx.
  rewrite Hk, Hc.
  destruct (String.eqb_spec k ""); [congruence|].
  destruct (String.eqb_spec c ""); [congruence|].
  simpl. eexists. reflexivity.
Qed.

(** C9. Whenever [search] sends its request, the [num] parameter equals
    [min(topn, 10)], and so never exceeds 10, for every query and every
    integer [topn]. *)
Theorem search_num_is_min_topn_10 env query topn req :
  search_request env query topn = Returns req ->
  num (params req) = Z.min topn 10 /\ (num (params req) <= 10)%Z.
Proof.
  unfold search_request. intros H.
  destruct (_get_api_key env) as [k|e]; simpl in H; [|discriminate].
  destruct (_get_cx env) as [c|e]; simpl in H; [|discriminate].
  injection H as <-. simpl. split; [reflexivity | apply Z.le_min_r].
Qed.

(** The theorem on a configured environment and [topn = 25]. *)
Lemma search_num_is_min_topn_10_witness :
  let env := {| GOOGLE_KEY := Some "k"; GOOGLE_CX := Some "c" |} in
  let req := {| url := "https://www.googleapis.com/customsearch/v1";
                params := {| key := "k"; cx := "c"; q := "rocq"; num := 10 |} |} in
  search_request env "rocq" 25 = Returns req /\
  (num (params req) = Z.min 25 10 /\ (num (params req) <= 10)%Z).
Proof.
  split; [reflexivity|].
  apply (search_num_is_min_topn_10
           {| GOOGLE_KEY := Some "k"; GOOGLE_CX := Some "c" |} "rocq" 25).
  reflexivity.
Defined.

End GoogleBackendFacts.

Module ChatClientFacts.
Import Py Json ChatClient.

Lemma pop_after_append {A} (l : list A) (x : A) : pop (l ++ [x]) = Returns l.
Proof.
  unfold pop. destruct (l ++ [x]) eqn:E.
  - destruct l; discriminate.
  - rewrite <- E. now rewrite removelast_last.
Qed.

Lemma set_history_same (self : client) :
  set_history self (conversation_history self) = self.
Proof. now destruct self. Qed.

Lemma set_history_twice (self : client) h1 h2 :
  set_history (set_history self h1) h2 = set_history self h2.
Proof. reflexivity. Qed.

(** [send_message] leaves the client untouched and answers [None] exactly
    when the request did not come back with a decoded body. *)
Lemma send_message_none_iff self cwd srv text payload :
  payload = JObj [("input", JArr (conversation_history self ++ [user_message_item text]));
                  ("instructions", JStr (build_instructions self cwd));
                  ("tools", JArr (build_tools_list self));
                  ("max_output_tokens", JInt (max_tokens self));
                  ("stream", JBool false);
                  ("store", JBool false)] ->
  send_message self cwd srv text = None <-> (forall body, srv payload <> HttpJson body).
Proof.
  intros ->. unfold send_message.
  destruct (srv _) eqn:E; split; intros H; try discriminate; try reflexivity;
    try (intros body Hb; discriminate).
  exfalso. now apply (H body).
Qed.

Lemma message_turn_without_response self cwd srv user_input :
  send_message
    (set_history self (conversation_history self ++ [user_message_item user_input]))
    cwd srv user_input = None ->
  message_turn self cwd srv user_input = (self, Continue).
Proof.
  intros Hnone. unfold message_turn. rewrite Hnone. cbn [conversation_history set_history].
  now rewrite pop_after_append, set_history_twice, set_history_same.
Qed.

(** C10. When [send_message] returns no response, the turn removes the user
    message it had just appended: the client after the failed turn, its
    conversation history included, is the client before it, and the loop
    goes on. *)
Theorem failed_turn_restores_history self cwd srv user_input :
  send_message
    (set_history self (conversation_history self ++ [user_message_item user_input]))
    cwd srv user_input = None ->
  message_turn self cwd srv user_input = (self, Continue) /\
  conversation_history (fst (message_turn self cwd srv user_input))
  = conversation_history self.
Proof.
  intros Hnone. rewrite (message_turn_without_response _ _ _ _ Hnone). now split.
Qed.

(** The theorem on a client with one earlier message and a request that
    times out. *)
Lemma failed_turn_restores_history_witness :
  let self := {| api_url := "http://localhost:8000"; enable_file_editing := true;
                 enable_web_search := true; max_tokens := 4096;
                 custom_instructions := None;
                 conversation_history := [user_message_item "earlier"] |} in
  message_turn self "/home/u" (fun _ => HttpTimeout) "hello" = (self, Continue) /\
  conversation_history (fst (message_turn self "/home/u" (fun _ => HttpTimeout) "hello"))
  = conversation_history self.
Proof.
  apply (failed_turn_restores_history
           {| api_url := "http://localhost:8000"; enable_file_editing := true;
              enable_web_search := true; max_tokens := 4096;
              custom_instructions := None;
              conversation_history := [user_message_item "earlier"] |}
           "/home/u" (fun _ => HttpTimeout) "hello").
  reflexivity.
Defined.

(** The same at the level of the loop body: a line that is no command and
    whose request fails leaves the client as it was. *)
Lemma run_iteration_failed_request self cwd srv raw :
  strip raw <> "" -> startswith "/" (strip raw) = false ->
  (forall payload body, srv payload <> HttpJson body) ->
  run_iteration self (Returns cwd) srv (InputLine raw) = (self, Continue).
Proof.
  intros Hne Hcmd Hsrv. unfold run_iteration, line_turn.
  destruct (String.eqb_spec (strip raw) ""); [contradiction|]. rewrite Hcmd.
  apply message_turn_without_response.
  eapply send_message_none_iff; [reflexivity|]. intros body. apply Hsrv.
Qed.

End ChatClientFacts.

Module ApplyPatchToolFacts.
Import Py Json ApplyPatchTool.

Lemma apply_step_yields apply_patch pt chan :
  exists out, yielded (apply_step apply_patch pt chan) = [_make_response out chan]
              /\ raised (apply_step apply_patch pt chan) = None
              /\ engine_calls (apply_step apply_patch pt chan) = [pt]
              /\ (apply_patch pt = Returns out
                  \/ exists e, apply_patch pt = Raises e
                               /\ out = "Error applying patch: " +:+ exn_str e).
Proof.
  unfold apply_step. destruct (apply_patch pt) as [res|e]; eexists; cbn; eauto 8.
Qed.

(** C2. Whatever text a message carries and whatever the engine does with
    it (return or raise), [_process] yields exactly one response message,
    whose content is one text part, and ends without an exception: the text
    is the engine's summary, or an error text made from the exception
    raised while unwrapping or while applying. *)
Theorem process_always_answers_with_text (apply_patch : engine) m text :
  first_text m = Returns text ->
  exists out,
    yielded (_process apply_patch m) = [_make_response out (channel m)] /\
    List.map content (yielded (_process apply_patch m)) = [[TextContent out]] /\
    raised (_process apply_patch m) = None /\
    ((exists pt, apply_patch pt = Returns out) \/
     (exists e, out = "Error parsing JSON: " +:+ exn_str e) \/
     (exists e, out = "Error applying patch: " +:+ exn_str e)).
Proof.
  intros Ht. unfold _process. rewrite Ht.
  assert (Hc : forall out chan,
             List.map content [_make_response out chan] = [[TextContent out]]).
  { intros out [ch|]; cbn; [destruct (String.eqb ch "")|]; reflexivity. }
  assert (Hstep : forall pt,
    exists out,
      yielded (apply_step apply_patch pt (channel m)) = [_make_response out (channel m)] /\
      List.map content (yielded (apply_step apply_patch pt (channel m)))
      = [[TextContent out]] /\
      raised (apply_step apply_patch pt (channel m)) = None /\
      ((exists pt, apply_patch pt = Returns out) \/
       (exists e, out = "Error parsing JSON: " +:+ exn_str e) \/
       (exists e, out = "Error applying patch: " +:+ exn_str e))).
  { intros pt. destruct (apply_step_yields apply_patch pt (channel m))
      as (out & Hy & Hr & _ & Ho).
    exists out. rewrite Hy, Hc. repeat split; try assumption.
    destruct Ho as [Ho|(e & _ & ->)]; eauto. }
  destruct (startswith "{" text).
  - destruct (unwrap text) as [pt|e].
    + apply Hstep.
    + eexists. cbn [yielded raised]. rewrite Hc. repeat split. right. left. eauto.
  - apply Hstep.
Qed.

(** The theorem on a text that opens with a brace and is no JSON, with an
    engine that always raises. *)
Lemma process_always_answers_with_text_witness :
  exists out,
    yielded (_process (fun _ => Raises (PyExn "DiffError" "Invalid patch"))
                      (text_message "{not json" (Some "commentary")))
    = [_make_response out (Some "commentary")] /\
    List.map content
      (yielded (_process (fun _ => Raises (PyExn "DiffError" "Invalid patch"))
                         (text_message "{not json" (Some "commentary"))))
    = [[TextContent out]] /\
    raised (_process (fun _ => Raises (PyExn "DiffError" "Invalid patch"))
                     (text_message "{not json" (Some "commentary"))) = None /\
    ((exists pt, (fun _ : value => Raises (PyExn "DiffError" "Invalid patch")) pt
                 = Returns out) \/
     (exists e, out = "Error parsing JSON: " +:+ exn_str e) \/
     (exists e, out = "Error applying patch: " +:+ exn_str e)).
Proof.
  apply (process_always_answers_with_text
           (fun _ => Raises (PyExn "DiffError" "Invalid patch"))
           (text_message "{not json" (Some "commentary")) "{not json").
  reflexivity.
Defined.

Lemma process_text_not_brace apply_patch m text :
  first_text m = Returns text -> startswith "{" text = false ->
  _process apply_patch m = apply_step apply_patch (JStr text) (channel m).
Proof. intros Ht Hb. unfold _process. now rewrite Ht, Hb. Qed.

Lemma startswith_begin_marker_not_brace text :
  startswith begin_marker text = true -> startswith "{" text = false.
Proof.
  unfold begin_marker. intros H. destruct text as [|c text]; [discriminate H|].
  cbn [startswith] in *.
  destruct (Ascii.eqb_spec "*" c) as [<-|]; [reflexivity|discriminate H].
Qed.

(** C3, as amended. A text that opens with a brace and decodes to a JSON
    object with exactly one key is unwrapped: the engine is called once,
    with that key's value and not with the enveloped form. A text that
    does not open with a brace, as every text beginning with the patch
    header, reaches the engine unchanged. *)
Theorem envelope_unwrapped_when_text_opens_with_brace (apply_patch : engine) m text :
  first_text m = Returns text ->
  (forall k v, startswith "{" text = true -> loads text = Returns (JObj [(k, v)]) ->
               engine_calls (_process apply_patch m) = [v]) /\
  (startswith "{" text = false ->
   engine_calls (_process apply_patch m) = [JStr text]) /\
  (startswith begin_marker text = true ->
   engine_calls (_process apply_patch m) = [JStr text]).
Proof.
  intros Ht. assert (Hraw : startswith "{" text = false ->
                            engine_calls (_process apply_patch m) = [JStr text]).
  { intros Hb. rewrite (process_text_not_brace _ _ _ Ht Hb).
    destruct (apply_step_yields apply_patch (JStr text) (channel m))
      as (_ & _ & _ & Hc & _). exact Hc. }
  split; [|split].
  - intros k v Hb Hl. unfold _process. rewrite Ht, Hb. unfold unwrap. rewrite Hl. cbn.
    destruct (apply_step_yields apply_patch v (channel m)) as (_ & _ & _ & Hc & _).
    exact Hc.
  - exact Hraw.
  - intros Hm. apply Hraw. now apply startswith_begin_marker_not_brace.
Qed.

(** The theorem on the example envelope. *)
Lemma envelope_unwrapped_when_text_opens_with_brace_witness :
  (forall k v, startswith "{" example_envelope = true ->
               loads example_envelope = Returns (JObj [(k, v)]) ->
               engine_calls (_process (fun _ => Returns "Done!")
                                      (text_message example_envelope None)) = [v]) /\
  (startswith "{" example_envelope = false ->
   engine_calls (_process (fun _ => Returns "Done!") (text_message example_envelope None))
   = [JStr example_envelope]) /\
  (startswith begin_marker example_envelope = true ->
   engine_calls (_process (fun _ => Returns "Done!") (text_message example_envelope None))
   = [JStr example_envelope]).
Proof.
  apply (envelope_unwrapped_when_text_opens_with_brace
           (fun _ => Returns "Done!") (text_message example_envelope None)
           example_envelope).
  reflexivity.
Defined.

Example example_envelope_unwrapped :
  loads example_envelope = Returns (JObj [("patch", JStr example_patch)]) /\
  engine_calls (_process (fun _ => Returns "Done!") (text_message example_envelope None))
  = [JStr example_patch].
Proof. split; vm_compute; reflexivity. Qed.

(** C3, as stated, fails: a JSON object with exactly one key whose value is
    the patch text, written with a blank before its opening brace, is a
    single-key envelope, yet the test [startswith] on the brace misses it
    and the engine is called with the enveloped form. *)
Lemma envelope_after_blank_reaches_engine_enveloped :
  exists text patch,
    is_envelope_of text patch /\
    forall (apply_patch : engine) chan,
      engine_calls (_process apply_patch (text_message text chan)) = [JStr text] /\
      engine_calls (_process apply_patch (text_message text chan)) <> [JStr patch].
Proof.
  exists (" " +:+ example_envelope), example_patch. split.
  - exists "patch". vm_compute. reflexivity.
  - intros apply_patch chan.
    assert (H : engine_calls (_process apply_patch
                                (text_message (" " +:+ example_envelope) chan))
                = [JStr (" " +:+ example_envelope)]).
    { rewrite (process_text_not_brace apply_patch _ (" " +:+ example_envelope));
        [|reflexivity|reflexivity].
      destruct (apply_step_yields apply_patch (JStr (" " +:+ example_envelope))
                  (channel (text_message (" " +:+ example_envelope) chan)))
        as (_ & _ & _ & Hc & _). exact Hc. }
    split; [exact H|]. rewrite H. intros Heq. discriminate Heq.
Qed.

(** C4. Whenever the engine, called by [_process], returns a summary
    without raising, the one message [_process] yields has that summary as
    its text content, unaltered. *)
Theorem summary_forwarded_verbatim (apply_patch : engine) m pt summary :
  engine_calls (_process apply_patch m) = [pt] ->
  apply_patch pt = Returns summary ->
  yielded (_process apply_patch m) = [_make_response summary (channel m)] /\
  List.map content (yielded (_process apply_patch m)) = [[TextContent summary]].
Proof.
  intros Hcall Hres.
  assert (Hstep : forall chan,
    engine_calls (apply_step apply_patch pt chan) = [pt] /\
    yielded (apply_step apply_patch pt chan) = [_make_response summary chan] /\
    List.map content (yielded (apply_step apply_patch pt chan)) = [[TextContent summary]]).
  { intros chan. unfold apply_step. rewrite Hres. cbn.
    destruct chan as [ch|]; cbn; [destruct (String.eqb ch "")|]; auto. }
  assert (Hinv : forall q chan, engine_calls (apply_step apply_patch q chan) = [pt] -> q = pt).
  { intros q chan. unfold apply_step. destruct (apply_patch q); cbn; congruence. }
  revert Hcall. unfold _process.
  destruct (first_text m) as [text|e]; [|discriminate].
  destruct (startswith "{" text).
  - destruct (unwrap text) as [u|e]; [|discriminate].
    intros Hcall. apply Hinv in Hcall. subst u. apply Hstep.
  - intros Hcall. apply Hinv in Hcall. rewrite Hcall. apply Hstep.
Qed.

(** The theorem on a raw patch text and an engine that answers [Done!]. *)
Lemma summary_forwarded_verbatim_witness :
  yielded (_process (fun _ => Returns "Done!") (text_message example_patch (Some "c")))
  = [_make_response "Done!" (Some "c")] /\
  List.map content
    (yielded (_process (fun _ => Returns "Done!") (text_message example_patch (Some "c"))))
  = [[TextContent "Done!"]].
Proof.
  apply (summary_forwarded_verbatim (fun _ => Returns "Done!")
           (text_message example_patch (Some "c")) (JStr example_patch) "Done!");
    reflexivity.
Defined.

End ApplyPatchToolFacts.

Module PatchEngineFacts.
Import Py PatchEngine.

(** *** The matcher *)

Lemma candidates_In eq f pr s i :
  In i (candidates eq f pr s) <->
  s <= i <= List.length f /\ matches_at eq pr (drop i f) = true.
Proof.
  unfold candidates. rewrite filter_In, in_seq. split; intros [H1 H2]; split; auto; lia.
Qed.

Lemma candidates_NoDup eq f pr s : NoDup (candidates eq f pr s).
Proof. unfold candidates. apply List.NoDup_filter, seq_NoDup. Qed.

Lemma matches_at_length eq pr l :
  matches_at eq pr l = true -> List.length pr <= List.length l.
Proof.
  revert l. induction pr as [|p pr IH]; intros [|x l]; cbn; try lia; try discriminate.
  intros H. apply andb_prop in H as [_ H]. apply IH in H. lia.
Qed.

(** An exact match is a verbatim occurrence. *)
Lemma matches_at_exact pr l :
  matches_at exact_eq pr l = true <-> take (List.length pr) l = pr.
Proof.
  revert l. induction pr as [|p pr IH]; intros [|x l]; cbn; try tauto.
  - split; [discriminate|]. intros H. discriminate H.
  - rewrite andb_true_iff, IH. unfold exact_eq. rewrite String.eqb_eq. split.
    + intros [-> ->]. reflexivity.
    + intros H. injection H as -> H. auto.
Qed.

Lemma NoDup_only_one {A} (l : list A) (i : A) :
  NoDup l -> In i l -> (forall j, In j l -> j = i) -> l = [i].
Proof.
  intros Hnd Hi Hall. destruct l as [|a [|b r]].
  - destruct Hi.
  - f_equal. apply Hall. now left.
  - exfalso. rewrite (Hall a) in Hnd by (now left).
    rewrite (Hall b) in Hnd by (right; now left).
    inversion Hnd as [|? ? Hnot _]. apply Hnot. now left.
Qed.

Lemma two_elements {A} (l : list A) (i j : A) :
  i <> j -> In i l -> In j l -> exists a b r, l = a :: b :: r.
Proof.
  intros Hne Hi Hj. destruct l as [|a [|b r]]; eauto.
  - destruct Hi.
  - destruct Hi as [<-|[]], Hj as [<-|[]]. congruence.
Qed.


Lemma matches_at_normalized pr l :
  matches_at normalized_eq pr l = true <->
  List.length pr <= List.length l /\
  List.map normalize (take (List.length pr) l) = List.map normalize pr.
Proof.
  revert l. induction pr as [|p pr IH]; intros l.
  - cbn. split; [intros _; split; [lia|reflexivity] | reflexivity].
  - destruct l as [|x l]; cbn.
    + split; [discriminate|]. intros [H _]. lia.
    + rewrite andb_true_iff, IH. unfold normalized_eq. rewrite String.eqb_eq. split.
      * intros [Hp [Hl Hm]]. split; [lia|]. now rewrite Hp, Hm.
      * intros [Hl Hm]. injection Hm as Hp Hm. split; [auto|]. split; [lia|auto].
Qed.

Lemma candidates_exact_iff f pr s i :
  In i (candidates exact_eq f pr s) <-> s <= i /\ occurs_verbatim_at f pr i.
Proof.
  rewrite candidates_In, matches_at_exact. unfold occurs_verbatim_at. tauto.
Qed.

Lemma candidates_normalized_iff f pr s i :
  In i (candidates normalized_eq f pr s) <-> s <= i /\ occurs_normalized_at f pr i.
Proof.
  rewrite candidates_In, matches_at_normalized. unfold occurs_normalized_at.
  split.
  - intros [[H1 H2] [H3 H4]]. auto.
  - intros [H1 [H2 H3]]. repeat split; auto.
    apply (f_equal (@List.length _)) in H3. rewrite !length_map, length_take in H3.
    lia.
Qed.

Lemma locate_inr f h s r :
  locate f h s = inr r ->
  r = range_at (m_start r) (probe h) /\ s <= m_start r /\ m_end r <= List.length f /\
  (In (m_start r) (candidates exact_eq f (probe h) s) \/
   candidates exact_eq f (probe h) s = [] /\
   In (m_start r) (candidates normalized_eq f (probe h) s)).
Proof.
  unfold locate. intros H.
  assert (Hgen : forall eq i, In i (candidates eq f (probe h) s) ->
                   s <= i /\ m_end (range_at i (probe h)) <= List.length f).
  { intros eq i Hi. apply candidates_In in Hi as [[H1 H2] H3].
    apply matches_at_length in H3. rewrite length_drop in H3. cbn. lia. }
  destruct (candidates exact_eq f (probe h) s) as [|i [|j cs]] eqn:E.
  - destruct (candidates normalized_eq f (probe h) s) as [|i [|j cs]] eqn:E';
      try discriminate.
    injection H as <-. destruct (Hgen normalized_eq i) as [H1 H2].
    { rewrite E'. now left. }
    repeat split; auto. right. split; auto. now left.
  - injection H as <-. destruct (Hgen exact_eq i) as [H1 H2].
    { rewrite E. now left. }
    repeat split; auto. left. now left.
  - discriminate.
Qed.

Lemma locate_unique_exact f h s i :
  s <= i -> occurs_verbatim_at f (probe h) i ->
  (forall j, s <= j -> occurs_verbatim_at f (probe h) j -> j = i) ->
  locate f h s = inr (range_at i (probe h)).
Proof.
  intros Hs Hi Hall. unfold locate.
  rewrite (NoDup_only_one (candidates exact_eq f (probe h) s) i).
  - reflexivity.
  - apply candidates_NoDup.
  - apply candidates_exact_iff. auto.
  - intros j Hj. apply candidates_exact_iff in Hj as [H1 H2]. auto.
Qed.

Lemma locate_ambiguous_exact f h s i j :
  i <> j -> s <= i -> s <= j ->
  occurs_verbatim_at f (probe h) i -> occurs_verbatim_at f (probe h) j ->
  exists cs, locate f h s = inl (Ambiguous cs) /\ In i cs /\ In j cs.
Proof.
  intros Hne Hi Hj Hoi Hoj. unfold locate.
  assert (Ii : In i (candidates exact_eq f (probe h) s))
    by (apply candidates_exact_iff; auto).
  assert (Ij : In j (candidates exact_eq f (probe h) s))
    by (apply candidates_exact_iff; auto).
  destruct (two_elements _ i j Hne Ii Ij) as (a & b & r & E). rewrite E in *.
  eexists. split; [reflexivity|]. auto.
Qed.

Lemma locate_ambiguous_normalized f h s i j :
  (forall k, s <= k -> ~ occurs_verbatim_at f (probe h) k) ->
  i <> j -> s <= i -> s <= j ->
  occurs_normalized_at f (probe h) i -> occurs_normalized_at f (probe h) j ->
  exists cs, locate f h s = inl (Ambiguous cs) /\ In i cs /\ In j cs.
Proof.
  intros Hnone Hne Hi Hj Hoi Hoj. unfold locate.
  destruct (candidates exact_eq f (probe h) s) as [|k cs] eqn:E.
  - assert (Ii : In i (candidates normalized_eq f (probe h) s))
      by (apply candidates_normalized_iff; auto).
    assert (Ij : In j (candidates normalized_eq f (probe h) s))
      by (apply candidates_normalized_iff; auto).
    destruct (two_elements _ i j Hne Ii Ij) as (a & b & r & E'). rewrite E' in *.
    eexists. split; [reflexivity|]. auto.
  - exfalso. assert (Ik : In k (candidates exact_eq f (probe h) s))
      by (rewrite E; now left).
    apply candidates_exact_iff in Ik as [H1 H2]. exact (Hnone k H1 H2).
Qed.

(** The rewrite of a single hunk located at an exact occurrence. *)
Lemma apply_hunks_single f h s i path idx :
  locate f h s = inr (range_at i (probe h)) ->
  occurs_verbatim_at f (probe h) i ->
  apply_hunks path f [h] idx s =
  inr (take (i - s) (drop s f) ++ context_before h ++ added_lines h
       ++ drop (i + List.length (probe h)) f, [range_at i (probe h)]).
Proof.
  intros Hl [_ Ho]. cbn. rewrite Hl. cbn. repeat f_equal.
  apply (f_equal (take (List.length (context_before h)))) in Ho.
  unfold probe in Ho at 2. rewrite take_app_length in Ho.
  rewrite take_take, Nat.min_l in Ho by (unfold probe; rewrite length_app; lia).
  exact Ho.
Qed.

Lemma apply_hunks_ranges path f hunks idx s content ranges :
  apply_hunks path f hunks idx s = inr (content, ranges) ->
  List.length ranges = List.length hunks /\
  (forall k h r, hunks !! k = Some h -> ranges !! k = Some r ->
                 locate f h (search_start s ranges k) = inr r) /\
  (forall r, In r ranges -> s <= m_start r /\ m_start r <= m_end r) /\
  (forall i j ri rj, i < j -> ranges !! i = Some ri -> ranges !! j = Some rj ->
                     m_end ri <= m_start rj).
Proof.
  revert idx s content ranges. induction hunks as [|h hs IH]; intros idx s content ranges.
  - cbn. intros H. injection H as <- <-. repeat split; easy.
  - cbn. destruct (locate f h s) as [[|cs]|r0] eqn:El; try discriminate.
    destruct (apply_hunks path f hs (S idx) (m_end r0)) as [e|[tl rs]] eqn:Er;
      try discriminate.
    intros H. injection H as <- <-.
    destruct (IH _ _ _ _ Er) as (Hlen & Hloc & Hge & Hord).
    destruct (locate_inr _ _ _ _ El) as (Hr0 & Hs0 & _ & _).
    assert (Hr0' : m_start r0 <= m_end r0).
    { rewrite Hr0. cbn. lia. }
    split; [cbn; lia|]. split; [|split].
    + intros [|k] h' r'; cbn.
      * intros [= <-] [= <-]. exact El.
      * intros Hh Hr. specialize (Hloc k h' r' Hh Hr).
        destruct k as [|k]; cbn in *; [exact Hloc|].
        destruct (rs !! k) eqn:Ek; [exact Hloc|]. exfalso.
        apply lookup_ge_None in Ek. apply lookup_lt_Some in Hr. lia.
    + intros r [<-|Hin]; [split; assumption|].
      destruct (Hge r Hin). split; lia.
    + intros [|i] [|j] ri rj Hij; cbn; try lia.
      * intros [= <-] Hj. apply list_elem_of_lookup_2, list_elem_of_In in Hj.
        destruct (Hge rj Hj). lia.
      * intros Hi Hj. apply (Hord i j); auto. lia.
Qed.

Lemma search_start_cons s r0 rs n :
  List.length rs = n -> search_start s (r0 :: rs) (S n) = search_start (m_end r0) rs n.
Proof.
  intros Hn. destruct n as [|n]; cbn; [reflexivity|].
  destruct (rs !! n) eqn:E; [reflexivity|]. apply lookup_ge_None in E. lia.
Qed.

Lemma apply_hunks_ambiguous_at path f hs1 h hs2 idx s content ranges cs :
  apply_hunks path f hs1 idx s = inr (content, ranges) ->
  locate f h (search_start s ranges (List.length hs1)) = inl (Ambiguous cs) ->
  apply_hunks path f (hs1 ++ h :: hs2) idx s
  = inl (AmbiguousMatch (idx + List.length hs1) cs).
Proof.
  revert idx s content ranges. induction hs1 as [|h1 hs1 IH]; intros idx s content ranges.
  - cbn. intros H Hl. injection H as <- <-. cbn in Hl. rewrite Hl.
    now rewrite Nat.add_0_r.
  - intros H Hl. cbn in H |- *.
    destruct (locate f h1 s) as [[|cs1]|r0] eqn:El; try discriminate.
    destruct (apply_hunks path f hs1 (S idx) (m_end r0)) as [e|[tl rs]] eqn:Er;
      try discriminate.
    injection H as <- <-.
    destruct (apply_hunks_ranges _ _ _ _ _ _ _ Er) as (Hlen & _).
    change (List.length (h1 :: hs1)) with (S (List.length hs1)) in Hl.
    rewrite search_start_cons in Hl by exact Hlen.
    rewrite (IH _ _ _ _ Er Hl). f_equal. f_equal. lia.
Qed.

(** *** The working directory and the validation phase *)

Lemma reads_only_refl st : reads_only st st.
Proof.
  repeat split. exists []. split; [now rewrite app_nil_r | constructor].
Qed.

Lemma reads_only_trans st1 st2 st3 :
  reads_only st1 st2 -> reads_only st2 st3 -> reads_only st1 st3.
Proof.
  intros (Hf & Hp & evs & Ht & Hall) (Hf' & Hp' & evs' & Ht' & Hall').
  repeat split; try congruence.
  exists (evs ++ evs'). split.
  - rewrite Ht', Ht. now rewrite app_assoc.
  - apply Forall_app. auto.
Qed.

Lemma reads_only_log ev st :
  is_mutation ev = false -> escapes_root (ev_path ev) = false ->
  reads_only st (log ev st).
Proof.
  intros Hm He. repeat split. exists [ev]. split; [reflexivity|].
  constructor; [auto | constructor].
Qed.

Lemma validate_op_escaping op st :
  escapes_root (op_path op) = true ->
  validate_op op st = (inl (PreconditionError PathEscapesRoot (op_path op)), st).
Proof. intros H. unfold validate_op. now rewrite H. Qed.

Lemma stat_true st path v :
  files st !! norm_path path = Some v ->
  stat path st = (true, log (EvStat path) st).
Proof.
  intros H. unfold stat. f_equal. apply bool_decide_eq_true. rewrite H. eauto.
Qed.

Lemma stat_false st path :
  files st !! norm_path path = None ->
  stat path st = (false, log (EvStat path) st).
Proof.
  intros H. unfold stat. f_equal. apply bool_decide_eq_false. rewrite H.
  intros [? ?]. discriminate.
Qed.

Lemma validate_op_spec op st :
  reads_only st (snd (validate_op op st)) /\
  forall p, fst (validate_op op st) = inr p -> prepared_for (files st) op p.
Proof.
  unfold validate_op. destruct (escapes_root (op_path op)) eqn:Hesc.
  - cbn. split; [apply reads_only_refl | discriminate].
  - assert (Hstat : reads_only st (log (EvStat (op_path op)) st))
      by (apply reads_only_log; auto).
    assert (Hread : reads_only st (log (EvRead (op_path op)) (log (EvStat (op_path op)) st))).
    { eapply reads_only_trans; [exact Hstat|]. apply reads_only_log; auto. }
    destruct op as [path c|path hunks|path]; cbn [op_path] in Hesc, Hstat, Hread;
      unfold bindM;
      (destruct (files st !! norm_path path) as [orig|] eqn:E;
       [rewrite (stat_true _ _ _ E) | rewrite (stat_false _ _ E)]);
      unfold read_file, ret; cbn [fst snd files log].
    + split; [auto|discriminate].
    + split; [auto|]. intros p [= <-]. repeat split; auto.
    + rewrite E.
      destruct (apply_hunks path (split_lines orig) hunks 0 0) as [r|[nl rs]] eqn:Eh;
        cbn [fst snd]; (split; [auto|]); [discriminate|].
      intros p [= <-]. repeat split; auto. exists orig, nl, rs. auto.
    + split; [auto|discriminate].
    + rewrite E. cbn [fst snd].
      split; [auto|]. intros p [= <-]. repeat split; auto. exists orig. auto.
    + split; [auto|discriminate].
Qed.

Lemma validate_all_spec ops st :
  reads_only st (snd (validate_all ops st)) /\
  match fst (validate_all ops st) with
  | inl (i, r) => i < List.length ops
  | inr ps => Forall2 (prepared_for (files st)) ops ps
  end.
Proof.
  revert st. induction ops as [|op ops IH]; intros st.
  - cbn. split; [apply reads_only_refl | constructor].
  - cbn [validate_all]. unfold bindM.
    destruct (validate_op_spec op st) as [Hro Hp].
    destruct (validate_op op st) as [[r|p] st1] eqn:E; cbn in Hro, Hp |- *.
    + split; [exact Hro | lia].
    + destruct (IH st1) as [Hro' Hv].
      destruct (validate_all ops st1) as [[[i r]|ps] st2] eqn:E'; cbn in Hro', Hv |- *.
      * split; [eapply reads_only_trans; eauto | lia].
      * split; [eapply reads_only_trans; eauto|].
        constructor; [now apply Hp|].
        destruct Hro as (Hf & _). rewrite Hf in Hv. exact Hv.
Qed.

(** *** The commit phase *)

Lemma perform_other (a : action) (f : gmap (list string) string) (k : list string) :
  k <> norm_path (action_path a) -> perform a f !! k = f !! k.
Proof.
  intros Hne. destruct a as [p c|p]; cbn in *.
  - now rewrite lookup_insert_ne.
  - now rewrite lookup_delete_ne.
Qed.

Lemma prepared_for_paths (f0 : gmap (list string) string) (op : FileOperation)
    (p : prepared) :
  prepared_for f0 op p ->
  action_path (p_action p) = op_path op /\ action_path (p_undo p) = op_path op.
Proof.
  intros (_ & _ & H). destruct op as [path c|path hunks|path]; cbn.
  - destruct H as (_ & -> & ->). auto.
  - destruct H as (? & ? & ? & _ & _ & -> & ->). auto.
  - destruct H as (? & _ & -> & ->). auto.
Qed.

(** Undoing right after committing restores the files, as long as the
    file of the operation is still as validation saw it. *)
Lemma prepared_for_undo (f0 : gmap (list string) string) (op : FileOperation)
    (p : prepared) (f : gmap (list string) string) :
  prepared_for f0 op p -> f !! op_key op = f0 !! op_key op ->
  perform (p_undo p) (perform (p_action p) f) = f.
Proof.
  intros (_ & _ & H) Hk. unfold op_key in Hk.
  destruct op as [path c|path hunks|path]; cbn [op_path] in *.
  - destruct H as (H0 & -> & ->). cbn [perform]. rewrite H0 in Hk.
    rewrite delete_insert_eq. now apply delete_id.
  - destruct H as (orig & nl & rs & H0 & _ & -> & ->). cbn [perform]. rewrite H0 in Hk.
    rewrite insert_insert_eq. now apply insert_id.
  - destruct H as (orig & H0 & -> & ->). cbn [perform]. rewrite H0 in Hk.
    rewrite insert_delete_eq. now apply insert_id.
Qed.

Lemma attempt_spec (a : action) (st : fs_state) :
  trace (snd (attempt a st)) = trace st ++ [action_event a (fst (attempt a st))] /\
  files (snd (attempt a st))
  = (if fst (attempt a st) then perform a (files st) else files st).
Proof.
  unfold attempt. destruct (faults st) as [|[|] rest]; cbn; auto.
Qed.

Lemma ev_path_action_event (a : action) (ok : bool) : ev_path (action_event a ok) = action_path a.
Proof. now destruct a. Qed.

Lemma rollback_spec (done : list prepared) (st : fs_state) :
  (fst (rollback done st) = [] ->
   files (snd (rollback done st)) = undo_all done (files st)) /\
  exists evs, trace (snd (rollback done st)) = trace st ++ evs /\
              Forall (fun ev => In (ev_path ev)
                                   (List.map (fun p => action_path (p_undo p)) done)) evs.
Proof.
  revert st. induction done as [|p done IH]; intros st.
  - cbn. split; [reflexivity|]. exists []. split; [now rewrite app_nil_r|constructor].
  - cbn [rollback]. unfold bindM, ret.
    destruct (attempt_spec (p_undo p) st) as [Ht Hf].
    destruct (attempt (p_undo p) st) as [ok st1]; cbn [fst snd] in Ht, Hf.
    destruct (IH st1) as [Hfiles (evs & Htr & Hall)].
    destruct (rollback done st1) as [fl st2]; cbn [fst snd] in *.
    split.
    + destruct ok; [|discriminate]. intros ->. rewrite Hfiles by reflexivity.
      cbn. now rewrite Hf.
    + exists (action_event (p_undo p) ok :: evs). split.
      * rewrite Htr, Ht. now rewrite <- app_assoc.
      * constructor.
        -- left. now rewrite ev_path_action_event.
        -- eapply Forall_impl; [|exact Hall]. intros ev Hev. now right.
Qed.

Lemma commit_loop_trace (ps done : list prepared) (st : fs_state) :
  (forall p, In p done -> action_path (p_undo p) = action_path (p_action p)) ->
  (forall p, In p ps -> action_path (p_undo p) = action_path (p_action p)) ->
  exists evs, trace (snd (commit_loop ps done st)) = trace st ++ evs /\
              Forall (fun ev => In (ev_path ev)
                                   (List.map (fun p => action_path (p_action p))
                                             (ps ++ done))) evs.
Proof.
  revert done st. induction ps as [|p ps IH]; intros done st Hdone Hps.
  - cbn. exists []. split; [now rewrite app_nil_r|constructor].
  - cbn [commit_loop]. unfold bindM, ret.
    destruct (attempt_spec (p_action p) st) as [Ht _].
    destruct (attempt (p_action p) st) as [[|] st1]; cbn [fst snd] in Ht.
    + destruct (IH (p :: done) st1) as (evs & Htr & Hall).
      { intros q [<-|Hq]; [apply Hps; now left | now apply Hdone]. }
      { intros q Hq. apply Hps. now right. }
      exists (action_event (p_action p) true :: evs). split.
      * rewrite Htr, Ht. now rewrite <- app_assoc.
      * constructor.
        -- cbn. left. now rewrite ev_path_action_event.
        -- eapply Forall_impl; [|exact Hall]. intros ev Hev. cbn in Hev |- *.
           rewrite map_app in Hev |- *. cbn in Hev.
           apply in_app_or in Hev as [Hev|[Hev|Hev]]; auto.
           ++ right. apply in_or_app. now left.
           ++ right. apply in_or_app. now right.
    + destruct (rollback_spec done st1) as [_ (evs & Htr & Hall)].
      destruct (rollback done st1) as [fl st2]; cbn [fst snd] in *.
      exists (action_event (p_action p) false :: evs). split.
      * rewrite Htr, Ht. now rewrite <- app_assoc.
      * constructor.
        -- cbn. left. now rewrite ev_path_action_event.
        -- eapply Forall_impl; [|exact Hall]. intros ev Hev. cbn.
           right. rewrite map_app. apply in_or_app. right.
           apply in_map_iff in Hev as (q & Hq & Hin). apply in_map_iff.
           exists q. split; [|exact Hin]. rewrite <- Hq. symmetry. now apply Hdone.
Qed.

Lemma commit_loop_success (ps done : list prepared) (st : fs_state) :
  fst (commit_loop ps done st) = None ->
  files (snd (commit_loop ps done st)) = commit_all ps (files st).
Proof.
  revert done st. induction ps as [|p ps IH]; intros done st.
  - reflexivity.
  - cbn [commit_loop commit_all fold_left]. unfold bindM, ret.
    destruct (attempt_spec (p_action p) st) as [_ Hf].
    destruct (attempt (p_action p) st) as [[|] st1]; cbn [fst snd] in Hf.
    + intros H. rewrite (IH _ _ H). unfold commit_all. now rewrite Hf.
    + destruct (rollback done st1); discriminate.
Qed.

(** A commit that fails and whose rollback reports no failure leaves the
    files as the operations in [done] found them. *)
Lemma commit_loop_rollback (f0 : gmap (list string) string) (ops : list FileOperation)
    (ps done : list prepared) (st : fs_state) i path :
  Forall2 (prepared_for f0) ops ps -> NoDup (List.map op_key ops) ->
  (forall op, In op ops -> files st !! op_key op = f0 !! op_key op) ->
  fst (commit_loop ps done st) = Some (i, path, []) ->
  files (snd (commit_loop ps done st)) = undo_all done (files st).
Proof.
  intros HF. revert done st. induction HF as [|op p ops ps Hp HF IH];
    intros done st Hnd Hsame.
  - discriminate.
  - cbn [commit_loop]. unfold bindM, ret.
    destruct (attempt_spec (p_action p) st) as [_ Hf].
    destruct (attempt (p_action p) st) as [[|] st1]; cbn [fst snd] in Hf.
    + intros H. cbn in Hnd. inversion Hnd as [|? ? Hnotin Hnd']; subst.
      rewrite (IH (p :: done) st1 Hnd'); [| |exact H].
      * cbn. rewrite Hf. f_equal. apply (prepared_for_undo f0 op); [exact Hp|].
        apply Hsame. now left.
      * intros op' Hin. rewrite Hf. rewrite perform_other.
        -- apply Hsame. now right.
        -- destruct (prepared_for_paths _ _ _ Hp) as [-> _]. intros Heq.
           apply Hnotin. apply in_map_iff. exists op'. split; [|exact Hin].
           exact Heq.
    + destruct (rollback_spec done st1) as [Hr _].
      destruct (rollback done st1) as [fl st2]; cbn [fst snd] in *.
      intros [= _ _ ->]. rewrite Hr by reflexivity. now rewrite Hf.
Qed.

Lemma commit_all_fully (f0 : gmap (list string) string) (ops : list FileOperation)
    (ps : list prepared) (f : gmap (list string) string) :
  Forall2 (prepared_for f0) ops ps -> NoDup (List.map op_key ops) ->
  (forall op, In op ops -> f !! op_key op = f0 !! op_key op) ->
  Forall (committed_in f0 (commit_all ps f)) ops /\
  forall k, ~ In k (List.map op_key ops) -> commit_all ps f !! k = f !! k.
Proof.
  intros HF. revert f. induction HF as [|op p ops ps Hp HF IH]; intros f Hnd Hsame.
  - split; [constructor | reflexivity].
  - cbn in Hnd. inversion Hnd as [|? ? Hnotin Hnd']; subst.
    cbn [commit_all fold_left].
    destruct (prepared_for_paths _ _ _ Hp) as [Hact _].
    destruct (IH (perform (p_action p) f) Hnd') as [Hall Hother].
    { intros op' Hin. rewrite perform_other; [apply Hsame; now right|].
      rewrite Hact. intros Heq. apply Hnotin. apply in_map_iff.
      exists op'. split; [|exact Hin]. exact Heq. }
    fold (commit_all ps (perform (p_action p) f)) in *.
    split.
    + constructor; [|exact Hall].
      specialize (Hother (op_key op) Hnotin).
      destruct Hp as (_ & _ & Hp). unfold op_key in *.
      destruct op as [path c|path hunks|path]; cbn [op_path committed_in] in *.
      * destruct Hp as (H0 & Ha & _). rewrite Ha in *. cbn [perform] in Hother.
        rewrite lookup_insert_eq in Hother. auto.
      * destruct Hp as (orig & nl & rs & H0 & Hh & Ha & _). rewrite Ha in *.
        cbn [perform] in Hother. rewrite lookup_insert_eq in Hother. eauto 6.
      * destruct Hp as (orig & H0 & Ha & _). rewrite Ha in *. cbn [perform] in Hother.
        rewrite lookup_delete_eq in Hother. rewrite H0. eauto.
    + intros k Hk. rewrite Hother.
      * apply perform_other. rewrite Hact. intros ->. apply Hk. now left.
      * intros Hin. apply Hk. now right.
Qed.

(** *** The parser *)

Lemma path_taken_false (ops : list FileOperation) (p : string) :
  path_taken ops p = false -> ~ In (norm_path p) (List.map op_key ops).
Proof.
  unfold path_taken. intros H Hin. apply bool_decide_eq_false in H. apply H.
  apply list_elem_of_In. exact Hin.
Qed.

Lemma start_operation_inv n (ops : list FileOperation) (k : line_kind) (ps' : parser) :
  NoDup (List.map op_key ops) ->
  start_operation n ops k = inr ps' -> parser_inv ps'.
Proof.
  intros Hnd. unfold start_operation, perr.
  destruct k as [|p|p|p| |]; try discriminate.
  - destruct ops as [|op ops]; [discriminate|]. intros [= <-]. split; [exact Hnd|].
    cbn. discriminate.
  - destruct (String.eqb p ""); [discriminate|].
    destruct (path_taken ops p) eqn:E; [discriminate|]. intros [= <-].
    split; [exact Hnd|]. cbn. now apply path_taken_false.
  - destruct (String.eqb p ""); [discriminate|].
    destruct (path_taken ops p) eqn:E; [discriminate|]. intros [= <-].
    split; [exact Hnd|]. cbn. now apply path_taken_false.
  - destruct (String.eqb p ""); [discriminate|].
    destruct (path_taken ops p) eqn:E; [discriminate|]. intros [= <-].
    split; [|exact I]. cbn. constructor; [now apply path_taken_false | exact Hnd].
Qed.

Lemma close_pending_inv n (ps : parser) (o : option FileOperation) :
  parser_inv ps -> close_pending n (state ps) = inr o ->
  NoDup (List.map op_key (match o with
                          | Some op => op :: ops_rev ps
                          | None => ops_rev ps
                          end)).
Proof.
  intros [Hnd Hst]. unfold close_pending, perr.
  destruct (state ps) as [| |path lr|path hr cur| |]; try (intros [= <-]; exact Hnd).
  - intros [= <-]. cbn. constructor; assumption.
  - destruct (close_hunk n hr cur) as [e|[|h hs]]; try discriminate.
    intros [= <-]. cbn. constructor; assumption.
Qed.

Lemma hunk_line_state n path hr cur l st' :
  hunk_line n path hr cur l = inr st' ->
  exists hr' cur', st' = InUpdateHunk path hr' cur'.
Proof.
  unfold hunk_line. destruct l as [|c rest].
  - destruct (close_hunk n hr cur); [discriminate|]. intros [= <-]. eauto.
  - destruct (Ascii.eqb c " ").
    { destruct cur as [[h [| |]]|]; intros [= <-]; eauto. }
    destruct (Ascii.eqb c "-").
    { destruct cur as [[h [| |]]|]; intros [= <-]; eauto. }
    destruct (Ascii.eqb c "+").
    { destruct cur as [[h [| |]]|]; intros [= <-]; eauto. }
    destruct (close_hunk n hr cur); [discriminate|]. intros [= <-]. eauto.
Qed.

Lemma step_inv (ps : parser) n l (ps' : parser) :
  parser_inv ps -> step ps n l = inr ps' -> parser_inv ps'.
Proof.
  intros Hinv. pose proof Hinv as [Hnd Hst]. unfold step.
  assert (Hdir : forall k,
    match close_pending n (state ps) with
    | inl e => inl e
    | inr None => start_operation n (ops_rev ps) k
    | inr (Some op) => start_operation n (op :: ops_rev ps) k
    end = inr ps' -> parser_inv ps').
  { intros k. destruct (close_pending n (state ps)) as [e|o] eqn:Ec; [discriminate|].
    pose proof (close_pending_inv _ _ _ Hinv Ec) as Hnd'.
    destruct o as [op|]; intros H; eapply start_operation_inv; eauto. }
  destruct (state ps) as [| |path lr|path hr cur| |] eqn:Es.
  - destruct (String.eqb l header); [|discriminate]. intros [= <-].
    split; [constructor | exact I].
  - destruct (classify l); try discriminate; apply Hdir.
  - destruct (classify l); try discriminate; try apply Hdir.
    intros [= <-]. split; [exact Hnd | exact Hst].
  - destruct (classify l); try discriminate; try apply Hdir.
    destruct (hunk_line n path hr cur l) as [e|st'] eqn:Eh; [discriminate|].
    intros [= <-]. destruct (hunk_line_state _ _ _ _ _ _ Eh) as (hr' & cur' & ->).
    split; [exact Hnd | exact Hst].
  - destruct (classify l); try discriminate; apply Hdir.
  - discriminate.
Qed.

Lemma run_lines_inv (ls : list string) (ps : parser) n (ps' : parser) :
  parser_inv ps -> run_lines ps n ls = inr ps' -> parser_inv ps'.
Proof.
  revert ps n. induction ls as [|l ls IH]; intros ps n Hinv.
  - intros [= <-]. exact Hinv.
  - cbn. destruct (step ps n l) as [e|ps1] eqn:E; [discriminate|].
    apply IH. eapply step_inv; eauto.
Qed.

(** Every patch the parser delivers is a valid patch. *)
Lemma parse_valid text (P : Patch) : parse text = inr P -> valid_patch P.
Proof.
  unfold parse, perr.
  destruct (run_lines {| ops_rev := []; state := Outside |} 1 (patch_lines text))
    as [e|ps] eqn:E; [discriminate|].
  assert (Hinv : parser_inv ps).
  { eapply run_lines_inv; [|exact E]. split; [constructor | exact I]. }
  destruct Hinv as [Hnd Hst].
  destruct (state ps); try discriminate. intros [= <-]. split.
  - intros Hrev. apply Hst. apply (f_equal (@List.rev _)) in Hrev.
    now rewrite rev_involutive in Hrev.
  - rewrite map_rev. apply NoDup_rev. exact Hnd.
Qed.

(** *** The engine *)

Lemma first_escaping_none (ops : list FileOperation) :
  first_escaping ops = None <->
  Forall (fun op => escapes_root (op_path op) = false) ops.
Proof.
  induction ops as [|op ops IH]; cbn.
  - split; [constructor | reflexivity].
  - destruct (escapes_root (op_path op)) eqn:E.
    + split; [discriminate|]. intros H. inversion H; congruence.
    + destruct (first_escaping ops) as [[i p]|].
      * split; [discriminate|]. intros H. inversion H as [|? ? _ H']; subst.
        apply IH in H'. discriminate.
      * split; [|reflexivity]. intros _. constructor; [exact E|]. now apply IH.
Qed.

Lemma first_escaping_at (pre post : list FileOperation) (op : FileOperation) :
  Forall (fun o => escapes_root (op_path o) = false) pre ->
  escapes_root (op_path op) = true ->
  first_escaping (pre ++ op :: post) = Some (List.length pre, op_path op).
Proof.
  induction 1 as [|o pre Ho _ IH]; intros Hesc; cbn.
  - now rewrite Hesc.
  - rewrite Ho, (IH Hesc). reflexivity.
Qed.

Lemma first_escaping_some (ops : list FileOperation) (op : FileOperation) :
  In op ops -> escapes_root (op_path op) = true ->
  exists i p, first_escaping ops = Some (i, p).
Proof.
  intros Hin Hesc. destruct (first_escaping ops) as [[i p]|] eqn:E; [eauto|].
  exfalso. apply first_escaping_none in E. rewrite Forall_forall in E.
  specialize (E op Hin). cbn in E. congruence.
Qed.

Lemma apply_escaping (patch : list FileOperation) (st : fs_state) i path :
  first_escaping patch = Some (i, path) ->
  apply patch st
  = ({| committed := false;
        results := abort_results patch i (PreconditionError PathEscapesRoot path) |}, st).
Proof. intros H. unfold apply. now rewrite H. Qed.

Lemma apply_validation_failure (patch : list FileOperation) (st st1 : fs_state) i r :
  first_escaping patch = None ->
  validate_all patch st = (inl (i, r), st1) ->
  apply patch st = ({| committed := false; results := abort_results patch i r |}, st1).
Proof. intros Hn H. unfold apply, bindM. now rewrite Hn, H. Qed.

Lemma validate_all_app_failure (pre post : list FileOperation) (op : FileOperation)
    (st st1 st2 : fs_state) ps r :
  validate_all pre st = (inr ps, st1) ->
  validate_op op st1 = (inl r, st2) ->
  validate_all (pre ++ op :: post) st = (inl (List.length pre, r), st2).
Proof.
  revert st ps. induction pre as [|o pre IH]; intros st ps.
  - cbn. intros [= <- <-] Hop. unfold bindM. now rewrite Hop.
  - cbn [validate_all app]. unfold bindM.
    destruct (validate_op o st) as [[r0|p] st'] ; [discriminate|].
    destruct (validate_all pre st') as [[[i r1]|ps'] st''] eqn:E; [discriminate|].
    intros [= <- <-] Hop. now rewrite (IH _ _ E Hop).
Qed.

Lemma Forall2_In_left {A B} (P : A -> B -> Prop) (l : list A) (k : list B) (x : A) :
  Forall2 P l k -> In x l -> exists y, In y k /\ P x y.
Proof.
  induction 1 as [|a b l k Hab HF IH]; intros Hin; [destruct Hin|].
  destruct Hin as [<-|Hin].
  - exists b. split; [now left | exact Hab].
  - destruct (IH Hin) as (y & Hy & Hp). exists y. split; [now right | exact Hp].
Qed.

Lemma validate_all_rejects_escaping (patch : list FileOperation) (st : fs_state) (op : FileOperation) :
  In op patch -> escapes_root (op_path op) = true ->
  exists i r, fst (validate_all patch st) = inl (i, r).
Proof.
  intros Hin Hesc. destruct (validate_all_spec patch st) as [_ H].
  destruct (fst (validate_all patch st)) as [[i r]|ps]; [eauto|].
  exfalso. destruct (Forall2_In_left _ _ _ _ H Hin) as (p & _ & _ & Hno & _).
  congruence.
Qed.

Lemma abort_results_lookup (patch : list FileOperation) i r n (op : FileOperation) :
  patch !! n = Some op ->
  abort_results patch i r !! n
  = Some {| operation := op;
            result_status := Failed (if Nat.eqb n i then r else Aborted) |}.
Proof.
  intros H. unfold abort_results. rewrite list_lookup_imap, H. reflexivity.
Qed.

Lemma abort_results_length (patch : list FileOperation) i r :
  List.length (abort_results patch i r) = List.length patch.
Proof. unfold abort_results. apply length_imap. Qed.

Lemma concat_all_nil {A} (ls : list (list A)) :
  (forall l, In l ls -> l = []) -> List.concat ls = [].
Proof.
  induction ls as [|l ls IH]; intros H; [reflexivity|]. cbn.
  rewrite (H l) by (now left). apply IH. intros l' Hl'. apply H. now right.
Qed.

Lemma rollback_failures_io (patch : list FileOperation) i path fl b :
  i < List.length patch ->
  rollback_failures {| committed := b;
                       results := abort_results patch i (IoError path fl) |} = [] ->
  fl = [].
Proof.
  intros Hi. unfold rollback_failures. cbn [results].
  destruct (lookup_lt_is_Some_2 patch i Hi) as [op Hop].
  pose proof (abort_results_lookup patch i (IoError path fl) i op Hop) as Hl.
  rewrite Nat.eqb_refl in Hl.
  apply list_elem_of_lookup_2, list_elem_of_In in Hl.
  intros Hc. destruct fl as [|x fl]; [reflexivity|]. exfalso.
  assert (Hin : In x (List.concat
                        (List.map (fun r => match result_status r with
                                            | Failed (IoError _ fs) => fs
                                            | _ => []
                                            end)
                                  (abort_results patch i (IoError path (x :: fl)))))).
  { apply in_concat. exists (x :: fl). split; [|now left].
    apply in_map_iff. eexists. split; [|exact Hl]. reflexivity. }
  rewrite Hc in Hin. destruct Hin.
Qed.

Lemma commit_loop_index (ps done : list prepared) (st : fs_state) i path fl :
  fst (commit_loop ps done st) = Some (i, path, fl) ->
  List.length done <= i < List.length done + List.length ps.
Proof.
  revert done st. induction ps as [|p ps IH]; intros done st; [discriminate|].
  cbn [commit_loop]. unfold bindM, ret.
  destruct (attempt (p_action p) st) as [[|] st1].
  - intros H. apply IH in H. cbn in *. lia.
  - destruct (rollback done st1) as [fl' st2]. intros [= <- _ _]. cbn. lia.
Qed.

Lemma validate_op_update_failure (st : fs_state) path hunks orig r :
  escapes_root path = false -> files st !! norm_path path = Some orig ->
  apply_hunks path (split_lines orig) hunks 0 0 = inl r ->
  validate_op (UpdateFile path hunks) st
  = (inl r, log (EvRead path) (log (EvStat path) st)).
Proof.
  intros Hesc Hf Hh. unfold validate_op. cbn [op_path]. rewrite Hesc.
  unfold bindM. rewrite (stat_true _ _ _ Hf). unfold read_file, ret.
  cbn [files log]. now rewrite Hf, Hh.
Qed.

(** No run of the engine accesses a path that leaves the working
    directory. *)
Lemma apply_never_touches_escaping_path (patch : list FileOperation) (st : fs_state) :
  exists evs, trace (snd (apply patch st)) = trace st ++ evs /\
              Forall (fun ev => escapes_root (ev_path ev) = false) evs.
Proof.
  destruct (validate_all_spec patch st) as [(_ & _ & evs & Htr & Hall) Hv].
  unfold apply, bindM. destruct (first_escaping patch) as [[i0 p0]|].
  { exists []. unfold ret. cbn [snd]. split; [now rewrite app_nil_r | constructor]. }
  destruct (validate_all patch st) as [[[i r]|ps] st1]; cbn [fst snd] in *.
  - exists evs. split; [exact Htr|]. eapply Forall_impl; [|exact Hall].
    intros ev [_ Hev]. exact Hev.
  - assert (Hps : forall p, In p ps ->
                    action_path (p_undo p) = action_path (p_action p) /\
                    escapes_root (action_path (p_action p)) = false).
    { intros p Hp. apply Forall2_flip in Hv.
      destruct (Forall2_In_left _ _ _ _ Hv Hp) as (op & _ & Hpf).
      destruct (prepared_for_paths _ _ _ Hpf) as [-> ->].
      destruct Hpf as (_ & Hesc & _). auto. }
    destruct (commit_loop_trace ps [] st1) as (evs' & Htr' & Hall').
    { intros p []. }
    { intros p Hp. now apply Hps. }
    exists (evs ++ evs'). split.
    + destruct (commit_loop ps [] st1) as [[[[i path] fl]|] st2];
        unfold ret; cbn [fst snd] in *; rewrite Htr', Htr; now rewrite app_assoc.
    + apply Forall_app. split.
      * eapply Forall_impl; [|exact Hall]. intros ev [_ Hev]. exact Hev.
      * eapply Forall_impl; [|exact Hall']. intros ev Hev. cbn in Hev.
        rewrite app_nil_r in Hev. apply in_map_iff in Hev as (p & <- & Hp).
        now apply Hps.
Qed.

(** C1, as amended. For every valid patch, [apply] either commits every
    operation, or reports the patch as not committed; it then leaves the
    working directory as it was whenever it reports no rollback failure,
    and always when an operation failed validation, where nothing is
    created, modified or deleted and no mutation is even attempted. *)
Theorem apply_commits_all_or_restores (patch : list FileOperation) (st : fs_state) :
  valid_patch patch ->
  (committed (fst (apply patch st)) = true /\
   fully_committed (files st) (files (snd (apply patch st))) patch) \/
  (committed (fst (apply patch st)) = false /\
   (rollback_failures (fst (apply patch st)) = [] ->
    files (snd (apply patch st)) = files st) /\
   (forall i r, fst (validate_all patch st) = inl (i, r) ->
                reads_only st (snd (apply patch st)))).
Proof.
  intros [_ Hnd]. destruct (validate_all_spec patch st) as [Hro Hv].
  unfold apply, bindM. destruct (first_escaping patch) as [[i0 p0]|].
  { right. unfold ret. cbn [fst snd committed]. split; [reflexivity|].
    split; [reflexivity|]. intros _ _ _. apply reads_only_refl. }
  destruct (validate_all patch st) as [[[i r]|ps] st1]; cbn [fst snd] in *.
  - right. unfold ret. cbn [fst snd committed]. split; [reflexivity|].
    pose proof Hro as (Hf & _). split; [intros _; exact Hf|].
    intros _ _ _. exact Hro.
  - pose proof Hro as (Hf & _).
    pose proof (commit_loop_success ps [] st1) as Hok.
    pose proof (commit_loop_rollback (files st) patch ps [] st1) as Hrb.
    pose proof (commit_loop_index ps [] st1) as Hix.
    destruct (commit_loop ps [] st1) as [[[[i path] fl]|] st2];
      unfold ret; cbn [fst snd committed] in *.
    + right. split; [reflexivity|]. split; [|discriminate].
      intros Hfl. apply rollback_failures_io in Hfl.
      * subst fl. rewrite (Hrb i path Hv Hnd); [exact Hf | | reflexivity].
        intros op _. now rewrite Hf.
      * specialize (Hix i path fl eq_refl). cbn in Hix.
        apply Forall2_length in Hv. lia.
    + left. split; [reflexivity|]. rewrite (Hok eq_refl), Hf.
      apply commit_all_fully; auto.
Qed.

(** C5. An operation whose path is absolute or resolves outside the
    working directory is rejected as a precondition failure before any
    access to the filesystem, whatever the state and with no flag to
    switch the check off: validation of the operation alone answers with
    the path-escape failure in an untouched state, and [apply] on a patch
    that holds such an operation returns with the working directory, its
    trace of accesses included, exactly as it was, commits nothing, reports
    the operation failed, and gives the path-escape reason to the first
    such operation of the patch. *)
Theorem escaping_path_rejected_without_access (patch : list FileOperation)
    (st : fs_state) (op : FileOperation) :
  In op patch -> escapes_root (op_path op) = true ->
  (forall st0, validate_op op st0
               = (inl (PreconditionError PathEscapesRoot (op_path op)), st0)) /\
  snd (apply patch st) = st /\
  committed (fst (apply patch st)) = false /\
  (forall n, patch !! n = Some op ->
             exists r, results (fst (apply patch st)) !! n
                       = Some {| operation := op; result_status := Failed r |}) /\
  (forall pre post,
      patch = pre ++ op :: post ->
      Forall (fun o => escapes_root (op_path o) = false) pre ->
      results (fst (apply patch st)) !! List.length pre
      = Some {| operation := op;
                result_status := Failed (PreconditionError PathEscapesRoot (op_path op)) |}).
Proof.
  intros Hin Hesc. split; [intros st0; now apply validate_op_escaping|].
  destruct (first_escaping_some patch op Hin Hesc) as (i & p & Hfirst).
  rewrite (apply_escaping _ st _ _ Hfirst). cbn [fst snd committed results].
  split; [reflexivity|]. split; [reflexivity|]. split.
  - intros n Hn. rewrite (abort_results_lookup _ _ _ _ _ Hn). eauto.
  - intros pre post -> Hpre.
    rewrite (first_escaping_at pre post op Hpre Hesc) in Hfirst.
    injection Hfirst as <- <-.
    rewrite (abort_results_lookup _ _ _ (List.length pre) op).
    + now rewrite Nat.eqb_refl.
    + rewrite lookup_app_r by lia. now rewrite Nat.sub_diag.
Qed.

(** C6. A hunk whose probe sequence occurs verbatim at exactly one
    location from the search start offset onward is located there, and the
    rewrite replaces its removed lines by its added lines at that location.
    A probe with two or more candidate locations, in the exact pass, or in
    the normalized pass when the exact pass finds none, makes [locate] fail
    as ambiguous; and when that happens to a hunk of an update (the hunks
    before it located, the operations before it validated, no path of the
    patch leaving the working directory), [apply] reports [AmbiguousMatch]
    for that operation and commits nothing: it has only checked and read
    files. *)
Theorem unique_match_applied_ambiguous_rejected (f : list string) (h : Hunk) (s : nat) :
  (forall i, s <= i -> occurs_verbatim_at f (probe h) i ->
     (forall j, s <= j -> occurs_verbatim_at f (probe h) j -> j = i) ->
     locate f h s = inr (range_at i (probe h)) /\
     forall path idx,
       apply_hunks path f [h] idx s
       = inr (take (i - s) (drop s f) ++ context_before h ++ added_lines h
              ++ drop (i + List.length (probe h)) f, [range_at i (probe h)])) /\
  (forall i j, i <> j -> s <= i -> s <= j ->
     (occurs_verbatim_at f (probe h) i /\ occurs_verbatim_at f (probe h) j) \/
     ((forall k, s <= k -> ~ occurs_verbatim_at f (probe h) k) /\
      occurs_normalized_at f (probe h) i /\ occurs_normalized_at f (probe h) j) ->
     exists cs, locate f h s = inl (Ambiguous cs) /\ In i cs /\ In j cs) /\
  (forall cs pre post path hs1 hs2 st ps st1 orig content ranges,
     locate f h s = inl (Ambiguous cs) ->
     f = split_lines orig -> s = search_start 0 ranges (List.length hs1) ->
     validate_all pre st = (inr ps, st1) ->
     escapes_root path = false -> files st !! norm_path path = Some orig ->
     Forall (fun o => escapes_root (op_path o) = false) post ->
     apply_hunks path f hs1 0 0 = inr (content, ranges) ->
     committed (fst (apply (pre ++ UpdateFile path (hs1 ++ h :: hs2) :: post) st)) = false /\
     results (fst (apply (pre ++ UpdateFile path (hs1 ++ h :: hs2) :: post) st))
     = abort_results (pre ++ UpdateFile path (hs1 ++ h :: hs2) :: post)
                     (List.length pre) (AmbiguousMatch (List.length hs1) cs) /\
     reads_only st (snd (apply (pre ++ UpdateFile path (hs1 ++ h :: hs2) :: post) st))).
Proof.
  split; [|split].
  - intros i Hs Hi Hall.
    pose proof (locate_unique_exact f h s i Hs Hi Hall) as Hl.
    split; [exact Hl|]. intros path idx. now apply apply_hunks_single.
  - intros i j Hne Hi Hj [[Hoi Hoj]|(Hnone & Hoi & Hoj)].
    + now apply locate_ambiguous_exact.
    + now apply locate_ambiguous_normalized.
  - intros cs pre post path hs1 hs2 st ps st1 orig content ranges Hl -> -> Hpre Hesc Hf
      Hpost Hh.
    assert (Hnone : first_escaping (pre ++ UpdateFile path (hs1 ++ h :: hs2) :: post)
                    = None).
    { apply first_escaping_none. apply Forall_app. split.
      - destruct (validate_all_spec pre st) as [_ Hv]. rewrite Hpre in Hv. cbn [fst] in Hv.
        clear -Hv. induction Hv as [|o p ops ps' Hp _ IH]; constructor; [|exact IH].
        destruct Hp as (_ & He & _). exact He.
      - constructor; [exact Hesc | exact Hpost]. }
    pose proof (apply_hunks_ambiguous_at path _ hs1 h hs2 0 0 content ranges cs Hh Hl)
      as Hamb.
    cbn [Nat.add] in Hamb.
    destruct (validate_all_spec pre st) as [Hro' _]. rewrite Hpre in Hro'.
    cbn [snd] in Hro'. pose proof Hro' as (Hfiles & _).
    assert (Hf1 : files st1 !! norm_path path = Some orig) by now rewrite Hfiles.
    pose proof (validate_op_update_failure st1 path (hs1 ++ h :: hs2) orig _
                  Hesc Hf1 Hamb) as Hop.
    pose proof (validate_all_app_failure pre post _ st st1 _ ps _ Hpre Hop) as Hall.
    rewrite (apply_validation_failure _ _ _ _ _ Hnone Hall).
    cbn [fst snd committed results].
    split; [reflexivity|]. split; [reflexivity|].
    eapply reads_only_trans; [exact Hro'|].
    eapply reads_only_trans; apply reads_only_log; auto.
Qed.

(** C8, as amended. When the hunks of an update are all located, they are
    located in the order given, one range per hunk: the search for each
    hunk starts at the end of the previous hunk's matched range (at the
    given offset for the first), so every range starts at or after that
    end, not necessarily strictly after it, and beyond every line of every
    earlier range; no two ranges overlap and none lies before an earlier
    one. *)
Theorem hunks_matched_forward_in_order path (f : list string) (hunks : list Hunk)
    idx s content (ranges : list MatchRange) :
  apply_hunks path f hunks idx s = inr (content, ranges) ->
  List.length ranges = List.length hunks /\
  (forall k h r, hunks !! k = Some h -> ranges !! k = Some r ->
                 locate f h (search_start s ranges k) = inr r /\
                 search_start s ranges k <= m_start r <= m_end r) /\
  (forall i j ri rj, i < j -> ranges !! i = Some ri -> ranges !! j = Some rj ->
                     m_end ri <= m_start rj /\
                     forall l, m_start ri <= l < m_end ri -> l < m_start rj).
Proof.
  intros H. destruct (apply_hunks_ranges _ _ _ _ _ _ _ H) as (Hlen & Hloc & _ & Hord).
  split; [exact Hlen|]. split.
  - intros k h r Hh Hr. pose proof (Hloc k h r Hh Hr) as Hl. split; [exact Hl|].
    destruct (locate_inr _ _ _ _ Hl) as (Hr0 & Hs & _). split; [exact Hs|].
    rewrite Hr0. cbn. lia.
  - intros i j ri rj Hij Hi Hj. pose proof (Hord i j ri rj Hij Hi Hj) as Hle.
    split; [exact Hle|]. intros l Hl. lia.
Qed.

(** The engine answers every text with a summary: it never raises on a
    text, whatever the working directory. *)
Lemma as_adapter_engine_answers_text (st : fs_state) (text : string) :
  exists summary, as_adapter_engine st (Json.JStr text) = Returns summary.
Proof. eexists. reflexivity. Qed.

(** *** Concrete runs *)

(** Section 8: adding [notes.txt] to an empty directory. *)
Example add_notes_committed :
  committed (fst (apply add_notes empty_dir)) = true /\
  files (snd (apply add_notes empty_dir)) !! ["notes.txt"]
  = Some (join_lines ["hello"; ""]).
Proof. split; vm_compute; reflexivity. Qed.

(** Section 8: updating [a.txt] with the hunk x, -y, +y2, z. *)
Example update_a_committed :
  committed (fst (apply [UpdateFile "a.txt" [hunk_y]] dir_with_a)) = true /\
  files (snd (apply [UpdateFile "a.txt" [hunk_y]] dir_with_a)) !! ["a.txt"]
  = Some (join_lines ["x"; "y2"; "z"; ""]).
Proof. split; vm_compute; reflexivity. Qed.

(** Section 8: the second of two operations fails its precondition. *)
Example second_fails_nothing_committed :
  apply [AddFile "n.txt" "hello"; DeleteFile "missing.txt"] dir_with_a
  = ({| committed := false;
        results := [ {| operation := AddFile "n.txt" "hello";
                        result_status := Failed Aborted |};
                     {| operation := DeleteFile "missing.txt";
                        result_status :=
                          Failed (PreconditionError DoesNotExist "missing.txt") |} ] |},
     {| files := files dir_with_a; faults := [];
        trace := [EvStat "n.txt"; EvStat "missing.txt"] |}).
Proof. vm_compute. reflexivity. Qed.

Lemma add_two_valid : valid_patch add_two.
Proof.
  split; [discriminate|]. vm_compute.
  constructor; [intros [H|[]]; discriminate H|]. constructor; [intros []|constructor].
Qed.

(** C1, as stated, fails: when a write of the commit phase fails and the
    rollback of the operations already committed fails too, the patch is
    neither fully committed nor is the working directory as before. *)
Lemma failed_rollback_leaves_partial_state :
  exists (patch : Patch) (st : fs_state),
    valid_patch patch /\
    committed (fst (apply patch st)) = false /\
    rollback_failures (fst (apply patch st)) = ["a.txt"] /\
    ~ fully_committed (files st) (files (snd (apply patch st))) patch /\
    files (snd (apply patch st)) <> files st.
Proof.
  exists add_two, failing_dir. split; [exact add_two_valid|].
  split; [vm_compute; reflexivity|]. split; [vm_compute; reflexivity|]. split.
  - intros [Hall _]. inversion Hall as [|? ? _ Hb]; subst.
    inversion Hb as [|? ? Hc _]; subst. destruct Hc as [_ Hc].
    vm_compute in Hc. discriminate Hc.
  - intros Heq. apply (f_equal (fun m => m !! ["a.txt"])) in Heq.
    vm_compute in Heq. discriminate Heq.
Qed.

(** The theorem on two additions to a directory whose second and third
    mutation fail. *)
Lemma apply_commits_all_or_restores_witness :
  (committed (fst (apply add_two failing_dir)) = true /\
   fully_committed (files failing_dir) (files (snd (apply add_two failing_dir))) add_two) \/
  (committed (fst (apply add_two failing_dir)) = false /\
   (rollback_failures (fst (apply add_two failing_dir)) = [] ->
    files (snd (apply add_two failing_dir)) = files failing_dir) /\
   (forall i r, fst (validate_all add_two failing_dir) = inl (i, r) ->
                reads_only failing_dir (snd (apply add_two failing_dir)))).
Proof.
  apply (apply_commits_all_or_restores add_two failing_dir).
  split; [discriminate|]. vm_compute.
  constructor; [intros [H|[]]; discriminate H|]. constructor; [intros []|constructor].
Defined.

(** The theorem on a patch that adds a file and then deletes
    [../../etc/passwd]. *)
Lemma escaping_path_rejected_without_access_witness :
  (forall st0, validate_op (DeleteFile "../../etc/passwd") st0
               = (inl (PreconditionError PathEscapesRoot "../../etc/passwd"), st0)) /\
  snd (apply add_then_escape dir_with_a) = dir_with_a /\
  committed (fst (apply add_then_escape dir_with_a)) = false /\
  (forall n, add_then_escape !! n = Some (DeleteFile "../../etc/passwd") ->
             exists r, results (fst (apply add_then_escape dir_with_a)) !! n
                       = Some {| operation := DeleteFile "../../etc/passwd";
                                 result_status := Failed r |}) /\
  (forall pre post,
      add_then_escape = pre ++ DeleteFile "../../etc/passwd" :: post ->
      Forall (fun o => escapes_root (op_path o) = false) pre ->
      results (fst (apply add_then_escape dir_with_a)) !! List.length pre
      = Some {| operation := DeleteFile "../../etc/passwd";
                result_status :=
                  Failed (PreconditionError PathEscapesRoot "../../etc/passwd") |}).
Proof.
  apply (escaping_path_rejected_without_access add_then_escape dir_with_a
           (DeleteFile "../../etc/passwd")).
  - right. left. reflexivity.
  - vm_compute. reflexivity.
Defined.

(** The theorem on an update of two hunks against the file x, y, z. *)
Lemma hunks_matched_forward_in_order_witness :
  List.length [range_at 0 (probe hunk_y); range_at 2 (probe hunk_z)]
  = List.length [hunk_y; hunk_z] /\
  (forall k h r, [hunk_y; hunk_z] !! k = Some h ->
                 [range_at 0 (probe hunk_y); range_at 2 (probe hunk_z)] !! k = Some r ->
                 locate ["x"; "y"; "z"; ""] h
                   (search_start 0 [range_at 0 (probe hunk_y); range_at 2 (probe hunk_z)] k)
                 = inr r /\
                 search_start 0 [range_at 0 (probe hunk_y); range_at 2 (probe hunk_z)] k
                 <= m_start r <= m_end r) /\
  (forall i j ri rj, i < j ->
     [range_at 0 (probe hunk_y); range_at 2 (probe hunk_z)] !! i = Some ri ->
     [range_at 0 (probe hunk_y); range_at 2 (probe hunk_z)] !! j = Some rj ->
     m_end ri <= m_start rj /\ forall l, m_start ri <= l < m_end ri -> l < m_start rj).
Proof.
  apply (hunks_matched_forward_in_order "a.txt" ["x"; "y"; "z"; ""] [hunk_y; hunk_z] 0 0
           ["x"; "y2"; "z2"; ""]).
  vm_compute. reflexivity.
Defined.

(** C8, as stated, fails: the range matched for a hunk may start exactly
    at the end of the range matched for the hunk before it, not strictly
    after it. On the file x, y, z the hunk that replaces y after the
    context x is matched on the lines 0 and 1, its range ending at 2, and
    the hunk that replaces z is matched from 2 on. *)
Lemma next_range_may_start_at_previous_end :
  exists (content : list string) (ri rj : MatchRange),
    apply_hunks "a.txt" ["x"; "y"; "z"; ""] [hunk_y; hunk_z] 0 0
    = inr (content, [ri; rj]) /\
    m_start rj = m_end ri /\
    ~ (m_end ri < m_start rj).
Proof.
  exists ["x"; "y2"; "z2"; ""], (range_at 0 (probe hunk_y)), (range_at 2 (probe hunk_z)).
  split; [vm_compute; reflexivity|]. split; [reflexivity|]. cbn. lia.
Qed.

(** The theorem on the file x, y, z (one location for the hunk) and on
    the file x, y, z, y (two locations for a bare removal of y). *)
Lemma unique_match_applied_ambiguous_rejected_witness :
  (locate ["x"; "y"; "z"; ""] hunk_y 0 = inr (range_at 0 (probe hunk_y)) /\
   forall path idx,
     apply_hunks path ["x"; "y"; "z"; ""] [hunk_y] idx 0
     = inr (take (0 - 0) (drop 0 ["x"; "y"; "z"; ""]) ++ context_before hunk_y
            ++ added_lines hunk_y
            ++ drop (0 + List.length (probe hunk_y)) ["x"; "y"; "z"; ""],
            [range_at 0 (probe hunk_y)])) /\
  (exists cs, locate ["x"; "y"; "z"; "y"] hunk_bare_y 0 = inl (Ambiguous cs)
              /\ In 1 cs /\ In 3 cs) /\
  (committed (fst (apply ([] ++ UpdateFile "a.txt" ([] ++ hunk_bare_y :: []) :: [])
                         dir_with_two_y)) = false /\
   results (fst (apply ([] ++ UpdateFile "a.txt" ([] ++ hunk_bare_y :: []) :: [])
                       dir_with_two_y))
   = abort_results ([] ++ UpdateFile "a.txt" ([] ++ hunk_bare_y :: []) :: [])
                   (List.length (@nil FileOperation))
                   (AmbiguousMatch (List.length (@nil Hunk)) [1; 3]) /\
   reads_only dir_with_two_y
     (snd (apply ([] ++ UpdateFile "a.txt" ([] ++ hunk_bare_y :: []) :: [])
                 dir_with_two_y))).
Proof.
  split; [|split]; cycle 2.
  { apply (proj2 (proj2 (unique_match_applied_ambiguous_rejected
                           (split_lines (join_lines ["x"; "y"; "z"; "y"]))
                           hunk_bare_y (search_start 0 [] 0)))
             [1; 3] [] [] "a.txt" [] [] dir_with_two_y [] dir_with_two_y
             (join_lines ["x"; "y"; "z"; "y"])
             (split_lines (join_lines ["x"; "y"; "z"; "y"])) []);
      first [reflexivity | constructor]. }
  - apply (proj1 (unique_match_applied_ambiguous_rejected
                    ["x"; "y"; "z"; ""] hunk_y 0) 0).
    + lia.
    + split; [cbn; lia | reflexivity].
    + intros j _ [Hj Ho].
      do 5 (destruct j as [|j]; [first [reflexivity | discriminate Ho]|]).
      cbn in Hj. lia.
  - apply (proj1 (proj2 (unique_match_applied_ambiguous_rejected
                           ["x"; "y"; "z"; "y"] hunk_bare_y 0)) 1 3).
    + lia.
    + lia.
    + lia.
    + left. split; (split; [cbn; lia | reflexivity]).
Defined.

(** An ambiguous hunk in a patch: nothing is committed. *)
Example ambiguous_hunk_commits_nothing :
  apply [UpdateFile "a.txt" [hunk_bare_y]]
        {| files := {[ ["a.txt"] := join_lines ["x"; "y"; "z"; "y"] ]};
           faults := []; trace := [] |}
  = ({| committed := false;
        results := [ {| operation := UpdateFile "a.txt" [hunk_bare_y];
                        result_status := Failed (AmbiguousMatch 0 [1; 3]) |} ] |},
     {| files := {[ ["a.txt"] := join_lines ["x"; "y"; "z"; "y"] ]};
        faults := []; trace := [EvStat "a.txt"; EvRead "a.txt"] |}).
Proof. vm_compute. reflexivity. Qed.

End PatchEngineFacts.

(** ** More on the adapter: its answers, wrappers of several keys or of
       none, messages without text *)
Module ApplyPatchToolMore.
Import Py Json ApplyPatchTool.

Lemma popitem_last (d : list (string * value)) (k : string) (v : value) :
  popitem (d ++ [(k, v)]) = Returns ((k, v), d).
Proof.
  unfold popitem. rewrite rev_app_distr. cbn [rev app].
  now rewrite rev_involutive.
Qed.

Lemma make_response_shape (out : string) (chan : option string) :
  let r := _make_response out chan in
  author r = {| role := TOOL; author_name := Some "apply_patch" |} /\
  recipient r = Some "assistant" /\
  content r = [TextContent out] /\
  channel r = match chan with
              | Some c => if String.eqb c "" then None else Some c
              | None => None
              end.
Proof.
  unfold _make_response, make_response.
  destruct chan as [c|]; [destruct (String.eqb c "")|]; cbn; auto.
Qed.

Lemma apply_step_yielded (apply_patch : engine) (v : value) (chan : option string) :
  exists out : string, yielded (apply_step apply_patch v chan) = [_make_response out chan].
Proof.
  unfold apply_step. destruct (apply_patch v); cbn; eauto.
Qed.

Lemma process_yielded (apply_patch : engine) (m : Message) :
  yielded (_process apply_patch m) = [] \/
  exists out : string, yielded (_process apply_patch m) = [_make_response out (channel m)].
Proof.
  unfold _process. destruct (first_text m) as [t|e]; [|left; reflexivity].
  cbv zeta. destruct (startswith "{" t).
  - destruct (unwrap t) as [v|e]; [|right; eexists; reflexivity].
    right. apply apply_step_yielded.
  - right. apply apply_step_yielded.
Qed.

(** X1. Every message [_process] yields is authored by the tool under the
    fixed name [apply_patch], addressed to [assistant], holds exactly one
    text part, and carries the channel of the request; a request without a
    channel, or with the empty string as channel, gets an answer without
    one. *)
Theorem answers_go_to_assistant_on_request_channel
    (apply_patch : engine) (m r : Message) :
  In r (yielded (_process apply_patch m)) ->
  author r = {| role := TOOL; author_name := Some "apply_patch" |} /\
  recipient r = Some "assistant" /\
  (exists out : string, content r = [TextContent out]) /\
  channel r = match channel m with
              | Some c => if String.eqb c "" then None else Some c
              | None => None
              end.
Proof.
  intros Hin.
  destruct (process_yielded apply_patch m) as [Hy | [out Hy]];
    rewrite Hy in Hin; cbn in Hin; [contradiction|].
  destruct Hin as [<- | []].
  destruct (make_response_shape out (channel m)) as (Ha & Hr & Hc & Hch).
  repeat split; eauto.
Qed.

Lemma answers_go_to_assistant_on_request_channel_witness :
  let m := text_message example_patch (Some "commentary") in
  let r := _make_response "Done!" (Some "commentary") in
  In r (yielded (_process (fun _ => Returns "Done!") m)) /\
  channel r = Some "commentary".
Proof.
  cbv zeta.
  assert (H : In (_make_response "Done!" (Some "commentary"))
                 (yielded (_process (fun _ => Returns "Done!")
                                    (text_message example_patch (Some "commentary"))))).
  { vm_compute. left. reflexivity. }
  split; [exact H|].
  exact (proj2 (proj2 (proj2
    (answers_go_to_assistant_on_request_channel _ _ _ H)))).
Defined.

(** X2. A text that opens with a brace but does not decode, or decodes to
    the empty object, never reaches the engine: [_process] yields the single
    message [Error parsing JSON: ...] and ends without an exception. *)
Theorem undecodable_wrapper_never_reaches_engine
    (apply_patch : engine) (m : Message) (text : string) :
  first_text m = Returns text ->
  startswith "{" text = true ->
  (exists e : pyexn, loads text = Raises e) \/ loads text = Returns (JObj []) ->
  engine_calls (_process apply_patch m) = [] /\
  raised (_process apply_patch m) = None /\
  exists e : pyexn,
    yielded (_process apply_patch m)
    = [_make_response ("Error parsing JSON: " +:+ exn_str e) (channel m)].
Proof.
  intros Hm Hb Hl. unfold _process. rewrite Hm, Hb.
  assert (Hu : exists e : pyexn, unwrap text = Raises e).
  { unfold unwrap. destruct Hl as [[e He] | He]; rewrite He; cbn; eauto. }
  destruct Hu as [e ->]. cbn. eauto.
Qed.

Lemma undecodable_wrapper_never_reaches_engine_witness :
  engine_calls (_process (fun _ => Returns "Done!") (text_message "{}" None)) = [] /\
  raised (_process (fun _ => Returns "Done!") (text_message "{}" None)) = None /\
  exists e : pyexn,
    yielded (_process (fun _ => Returns "Done!") (text_message "{}" None))
    = [_make_response ("Error parsing JSON: " +:+ exn_str e) None].
Proof.
  apply (undecodable_wrapper_never_reaches_engine
           (fun _ => Returns "Done!") (text_message "{}" None) "{}").
  - reflexivity.
  - reflexivity.
  - right. vm_compute. reflexivity.
Defined.

(** X3. When the text opens with a brace and decodes to an object of one or
    more keys, the engine is called once, with the value of the key that
    comes last in the text; the other keys are ignored and the object is not
    rejected for having them. *)
Theorem wrapper_of_several_keys_gives_last_value
    (apply_patch : engine) (m : Message) (text : string)
    (d : list (string * value)) (k : string) (v : value) :
  first_text m = Returns text ->
  startswith "{" text = true ->
  loads text = Returns (JObj (d ++ [(k, v)])) ->
  engine_calls (_process apply_patch m) = [v].
Proof.
  intros Hm Hb Hl. unfold _process. rewrite Hm, Hb.
  unfold unwrap. rewrite Hl. cbn [bind]. rewrite popitem_last. cbn [bind fst snd].
  unfold apply_step. destruct (apply_patch v); reflexivity.
Qed.

Lemma wrapper_of_several_keys_gives_last_value_witness :
  engine_calls (_process (fun _ => Returns "Done!") (text_message two_key_wrapper None))
  = [JStr "y"].
Proof.
  apply (wrapper_of_several_keys_gives_last_value
           (fun _ => Returns "Done!") (text_message two_key_wrapper None)
           two_key_wrapper [("a", JStr "x")] "b" (JStr "y")).
  - reflexivity.
  - reflexivity.
  - vm_compute. reflexivity.
Defined.

(** X4. A message with no content part, or whose first part is not a text
    part, makes [_process] raise at its first line: nothing is yielded and
    the engine is not called. *)
Theorem message_without_text_part_raises
    (apply_patch : engine) (m : Message) :
  content m = [] \/ (exists rest : list Content, content m = OtherContent :: rest) ->
  yielded (_process apply_patch m) = [] /\
  engine_calls (_process apply_patch m) = [] /\
  exists e : pyexn, raised (_process apply_patch m) = Some e.
Proof.
  intros H. unfold _process, first_text.
  destruct H as [-> | [rest ->]]; cbn; eauto.
Qed.

Lemma message_without_text_part_raises_witness :
  let m := {| author := {| role := ASSISTANT; author_name := None |};
              content := []; channel := None; recipient := None |} in
  yielded (_process (fun _ => Returns "Done!") m) = [] /\
  engine_calls (_process (fun _ => Returns "Done!") m) = [] /\
  exists e : pyexn, raised (_process (fun _ => Returns "Done!") m) = Some e.
Proof.
  cbv zeta.
  apply (message_without_text_part_raises (fun _ => Returns "Done!")).
  left. reflexivity.
Defined.

End ApplyPatchToolMore.

(** ** More on the Google backend: credentials, statuses, the page *)
Module GoogleBackendMore.
Import Py GoogleBackend.

Lemma item_tuples_dicts (items : list (list (string * Json.value))) :
  item_tuples (map Json.JObj items)
  = Returns (map (fun d => (field d "title", field d "link", field d "snippet")) items).
Proof.
  induction items as [|d items IH]; [reflexivity|].
  cbn [map item_tuples item_tuple bind]. rewrite IH. reflexivity.
Qed.

(** X5. Without credentials [search] sends nothing: when [GOOGLE_KEY] or
    [GOOGLE_CX] is unset or empty it raises [BackendError] whatever the
    session would answer, and a missing key is reported before a missing
    engine id. *)
Theorem search_without_credentials_sends_nothing
    (pystr : Json.value -> string) (env : environ) (query : string) (topn : Z)
    (session : search_session) :
  GOOGLE_KEY env = None \/ GOOGLE_KEY env = Some "" \/
  GOOGLE_CX env = None \/ GOOGLE_CX env = Some "" ->
  search pystr env query topn session
  = Raises (BackendError
              match GOOGLE_KEY env with
              | Some (String _ _) => "Google Custom Search Engine ID not provided"
              | _ => "Google API key not provided"
              end).
Proof.
  intros H. unfold search, search_request, _get_api_key, _get_cx.
  destruct (GOOGLE_KEY env) as [[|a k]|]; cbn; try reflexivity.
  destruct H as [H | [H | [H | H]]]; try discriminate; rewrite H; reflexivity.
Qed.

Lemma search_without_credentials_sends_nothing_witness :
  search (fun _ => "") {| GOOGLE_KEY := None; GOOGLE_CX := None |} "rocq" 5
         (fun _ => Raises (PyExn "ClientError" ""))
  = Raises (BackendError "Google API key not provided").
Proof.
  apply (search_without_credentials_sends_nothing
           (fun _ => "") {| GOOGLE_KEY := None; GOOGLE_CX := None |} "rocq" 5).
  left. reflexivity.
Defined.

(** X6. [search] hands a page to [process_html] only after a request with
    both credentials, to the fixed address and with the query unchanged,
    was answered with status 200 and a JSON body; the page's title is then
    the query and its URL is empty. *)
Theorem search_returns_only_after_status_200
    (pystr : Json.value -> string) (env : environ) (query : string) (topn : Z)
    (session : search_session) (call : process_html_call) :
  search pystr env query topn session = Returns call ->
  exists (api_key cx_ : string) (resp : response) (data : Json.value),
    GOOGLE_KEY env = Some api_key /\ api_key <> "" /\
    GOOGLE_CX env = Some cx_ /\ cx_ <> "" /\
    session {| url := "https://www.googleapis.com/customsearch/v1";
               params := {| key := api_key; cx := cx_; q := query;
                            num := Z.min topn 10 |} |} = Returns resp /\
    status resp = 200%Z /\ json resp = Returns data /\
    title call = query /\ page_url call = "" /\ display_urls call = true.
Proof.
  unfold search, search_request, _get_api_key, _get_cx. intros H.
  destruct (GOOGLE_KEY env) as [[|a k]|]; try discriminate.
  destruct (GOOGLE_CX env) as [[|b c]|]; try discriminate.
  cbn in H.
  match type of H with context [session ?r] => destruct (session r) as [resp|e] eqn:Hs end;
    try discriminate.
  cbn in H.
  destruct (status resp =? 200)%Z eqn:Hst; try discriminate. cbn in H.
  destruct (json resp) as [data|e] eqn:Hj; try discriminate. cbn in H.
  destruct (titles_and_urls data) as [ts|e]; try discriminate. cbn in H.
  injection H as <-.
  exists (String a k), (String b c), resp, data.
  repeat split; try congruence. now apply Z.eqb_eq.
Qed.

Lemma search_returns_only_after_status_200_witness :
  exists (api_key cx_ : string) (resp : response) (data : Json.value),
    GOOGLE_KEY both_set = Some api_key /\ api_key <> "" /\
    GOOGLE_CX both_set = Some cx_ /\ cx_ <> "" /\
    empty_answer {| url := "https://www.googleapis.com/customsearch/v1";
                    params := {| key := api_key; cx := cx_; q := "rocq";
                                 num := Z.min 5 10 |} |} = Returns resp /\
    status resp = 200%Z /\ json resp = Returns data /\
    "rocq" = "rocq" /\ "" = "" /\ true = true.
Proof.
  apply (search_returns_only_after_status_200
           (fun _ => "") both_set "rocq" 5 empty_answer
           {| html := html_page (fun _ => "") "rocq" []; page_url := "";
              title := "rocq"; display_urls := true |}).
  vm_compute. reflexivity.
Defined.

(** X7. [fetch] hands a page to [process_html] only when the GET of the URL
    was answered with status 200; the page's text is then the body as
    received, its URL the URL fetched, and its title empty. *)
Theorem fetch_returns_only_body_of_status_200
    (url_ : string) (session : fetch_session) (call : process_html_call) :
  fetch url_ session = Returns call ->
  exists resp : response,
    session url_ = Returns resp /\ status resp = 200%Z /\
    html call = text resp /\ page_url call = url_ /\ title call = "".
Proof.
  unfold fetch. intros H.
  destruct (session url_) as [resp|e]; try discriminate. cbn in H.
  destruct (status resp =? 200)%Z eqn:Hst; try discriminate. cbn in H.
  injection H as <-. exists resp. repeat split. now apply Z.eqb_eq.
Qed.

Lemma fetch_returns_only_body_of_status_200_witness :
  exists resp : response,
    (fun _ => Returns {| status := 200; text := "<p>hi</p>";
                         json := Raises (PyExn "ContentTypeError" "") |})
      "http://example.org" = Returns resp /\
    status resp = 200%Z /\ "<p>hi</p>" = text resp /\
    "http://example.org" = "http://example.org" /\ "" = "".
Proof.
  apply (fetch_returns_only_body_of_status_200
           "http://example.org"
           (fun _ => Returns {| status := 200; text := "<p>hi</p>";
                                json := Raises (PyExn "ContentTypeError" "") |})
           {| html := "<p>hi</p>"; page_url := "http://example.org"; title := "";
              display_urls := true |}).
  reflexivity.
Defined.

(** X8. When the answer has status 200 and its body is an object whose
    [items] are objects, [search] does not raise: the page lists one entry
    per item, in the order received, with the empty string for every
    [title], [link] or [snippet] an item lacks. A body without the key
    [items] gives the page with an empty list. *)
Theorem search_lists_every_item_in_order
    (pystr : Json.value -> string) (env : environ) (query : string) (topn : Z)
    (session : search_session) (req : request) (resp : response)
    (d : list (string * Json.value)) (items : list (list (string * Json.value))) :
  search_request env query topn = Returns req ->
  session req = Returns resp ->
  status resp = 200%Z ->
  json resp = Returns (Json.JObj d) ->
  (Json.dict_get d "items" = None /\ items = []) \/
  Json.dict_get d "items" = Some (Json.JArr (map Json.JObj items)) ->
  search pystr env query topn session
  = Returns {| html := html_page pystr query
                         (map (fun item => (field item "title", field item "link",
                                            field item "snippet")) items);
               page_url := ""; title := query; display_urls := true |}.
Proof.
  intros Hreq Hs Hst Hj Hitems. unfold search.
  rewrite Hreq. cbn [bind]. rewrite Hs. cbn [bind]. rewrite Hst. cbn [Z.eqb Pos.eqb negb].
  rewrite Hj. cbn [bind].
  assert (Ht : titles_and_urls (Json.JObj d)
               = Returns (map (fun item => (field item "title", field item "link",
                                            field item "snippet")) items)).
  { unfold titles_and_urls, Json.str_in.
    destruct Hitems as [[Hnone ->] | Hsome].
    - rewrite Hnone. reflexivity.
    - rewrite Hsome. cbn [bind Json.iterate]. apply item_tuples_dicts. }
  rewrite Ht. reflexivity.
Qed.

Lemma search_lists_every_item_in_order_witness :
  search (fun _ => "") both_set "rocq" 5 empty_answer
  = Returns {| html := html_page (fun _ => "") "rocq" []; page_url := "";
               title := "rocq"; display_urls := true |}.
Proof.
  apply (search_lists_every_item_in_order
           (fun _ => "") both_set "rocq" 5 empty_answer
           {| url := "https://www.googleapis.com/customsearch/v1";
              params := {| key := "k"; cx := "c"; q := "rocq"; num := 5 |} |}
           {| status := 200; text := "{}"; json := Returns (Json.JObj []) |}
           [] []).
  - reflexivity.
  - reflexivity.
  - reflexivity.
  - reflexivity.
  - left. split; reflexivity.
Defined.

End GoogleBackendMore.

(** ** Strings: characters, slices, repetition *)
Module PyMore.
Import Py.

Lemma len_app (a b : string) : len (a +:+ b) = (len a + len b)%nat.
Proof.
  induction a as [|c a IH]; [reflexivity|].
  change (String c a +:+ b) with (String c (a +:+ b)).
  cbn [len]. destruct (is_continuation c); rewrite IH; reflexivity.
Qed.

Lemma len_times (s : string) (n : nat) : len (times s n) = (n * len s)%nat.
Proof.
  induction n as [|n IH]; [reflexivity|].
  cbn [times]. rewrite len_app, IH. reflexivity.
Qed.

Lemma len_slice_to (n : nat) (s : string) : (len (slice_to n s) <= n)%nat.
Proof.
  revert n. induction s as [|c s IH]; intros n; [cbn; lia|].
  cbn [slice_to]. destruct (is_continuation c) eqn:Hc.
  - cbn [len]. rewrite Hc. apply IH.
  - destruct n as [|n]; [cbn; lia|]. cbn [len]. rewrite Hc.
    specialize (IH n). lia.
Qed.

Lemma slice_to_all (n : nat) (s : string) : (len s <= n)%nat -> slice_to n s = s.
Proof.
  revert n. induction s as [|c s IH]; intros n Hn; [reflexivity|].
  cbn [slice_to]. cbn [len] in Hn. destruct (is_continuation c).
  - now rewrite IH.
  - destruct n as [|n]; [lia|]. rewrite IH; [reflexivity|lia].
Qed.

Lemma list_ascii_app (a b : string) :
  list_ascii_of_string (a +:+ b) = list_ascii_of_string a ++ list_ascii_of_string b.
Proof.
  induction a as [|c a IH]; [reflexivity|].
  change (String c a +:+ b) with (String c (a +:+ b)).
  cbn [list_ascii_of_string app]. now rewrite IH.
Qed.

Lemma split_free (sep : ascii) (s : string) :
  Forall (fun a => a <> sep) (list_ascii_of_string s) -> split sep s = [s].
Proof.
  induction s as [|c s IH]; intros H; [reflexivity|].
  cbn in H. inversion H as [|? ? Hc Hs]; subst.
  cbn [split]. destruct (Ascii.eqb_spec c sep); [contradiction|].
  now rewrite IH.
Qed.

Lemma split_inv_free (sep : ascii) (s : string) :
  split sep s = [s] -> Forall (fun a => a <> sep) (list_ascii_of_string s).
Proof.
  induction s as [|c s IH]; intros H; [constructor|].
  cbn [split] in H. destruct (Ascii.eqb_spec c sep) as [->|Hne].
  - discriminate.
  - destruct (split sep s) as [|x xs] eqn:E.
    + injection H as H. subst s. cbn. constructor; [assumption|constructor].
    + injection H as H1 H2. subst x xs. cbn. constructor; [assumption|].
      now apply IH.
Qed.

Lemma split_hd_free (sep : ascii) (s : string) :
  Forall (fun a => a <> sep) (list_ascii_of_string (hd "" (split sep s))).
Proof.
  induction s as [|c s IH]; [constructor|].
  cbn [split]. destruct (Ascii.eqb_spec c sep) as [->|Hne]; [constructor|].
  destruct (split sep s) as [|x xs]; cbn in *.
  - constructor; [assumption|constructor].
  - constructor; assumption.
Qed.

Lemma slice_to_free (sep : ascii) (n : nat) (s : string) :
  Forall (fun a => a <> sep) (list_ascii_of_string s) ->
  Forall (fun a => a <> sep) (list_ascii_of_string (slice_to n s)).
Proof.
  revert n. induction s as [|c s IH]; intros n H; [constructor|].
  cbn in H. inversion H as [|? ? Hc Hs]; subst.
  cbn [slice_to]. destruct (is_continuation c).
  - cbn. constructor; [assumption|]. now apply IH.
  - destruct n as [|n]; [constructor|]. cbn. constructor; [assumption|]. now apply IH.
Qed.

Lemma rstrip_char_snoc (ch : ascii) (s : string) :
  rstrip_char ch (s +:+ String ch "") = rstrip_char ch s.
Proof.
  induction s as [|c s IH].
  - change ("" +:+ String ch "") with (String ch "").
    cbn [rstrip_char]. now rewrite Ascii.eqb_refl.
  - change (String c s +:+ String ch "") with (String c (s +:+ String ch "")).
    cbn [rstrip_char]. now rewrite IH.
Qed.

Lemma app_assoc_string (a b c : string) : (a +:+ b) +:+ c = a +:+ (b +:+ c).
Proof.
  induction a as [|x a IH]; [reflexivity|].
  change ((String x a +:+ b) +:+ c) with (String x ((a +:+ b) +:+ c)).
  now rewrite IH.
Qed.

Lemma rstrip_char_times (ch : ascii) (s : string) (n : nat) :
  rstrip_char ch (s +:+ times (String ch "") n) = rstrip_char ch s.
Proof.
  revert s. induction n as [|n IH]; intros s.
  - cbn [times]. replace (s +:+ "") with s; [reflexivity|].
    induction s as [|c s IHs]; [reflexivity|].
    change (String c s +:+ "") with (String c (s +:+ "")). now rewrite <- IHs.
  - cbn [times]. rewrite <- app_assoc_string, IH. apply rstrip_char_snoc.
Qed.

End PyMore.

(** ** More on the terminal client: what a turn posts and keeps, commands,
       the loop as a whole, the header and the reasoning preview *)
Module ChatClientMore.
Import Py Json ChatClient.

Lemma send_message_posts (self : client) (cwd : string) (srv : server)
    (user_message : string) :
  send_message self cwd srv user_message
  = match srv (request_payload self cwd user_message) with
    | HttpJson body => Some body
    | _ => None
    end.
Proof.
  unfold send_message, request_payload. destruct (srv _); reflexivity.
Qed.

Lemma display_output_dicts (output : list value) :
  display_output output = Returns tt -> forallb is_dict output = true.
Proof.
  unfold display_output.
  induction output as [|item output IH]; intros H; [reflexivity|].
  cbn [for_each] in H. destruct item; try discriminate.
  cbn [forallb is_dict andb]. apply IH.
  destruct (display_item (JObj pairs)) as [[]|e]; [exact H|discriminate].
Qed.

(** X9. A turn of [run] consults the server on one payload only, and in it
    the user's message stands twice at the end of [input]: [run] has
    appended it to the history before [send_message] appends it to its copy
    of the history. *)
Theorem turn_posts_user_message_twice
    (self : client) (cwd : string) (srv1 srv2 : server) (user_input : string) :
  let payload :=
    JObj [("input", JArr (conversation_history self ++
                          [user_message_item user_input; user_message_item user_input]));
          ("instructions", JStr (build_instructions self cwd));
          ("tools", JArr (build_tools_list self));
          ("max_output_tokens", JInt (max_tokens self));
          ("stream", JBool false);
          ("store", JBool false)] in
  srv1 payload = srv2 payload ->
  message_turn self cwd srv1 user_input = message_turn self cwd srv2 user_input.
Proof.
  intros payload H. unfold message_turn. rewrite !send_message_posts.
  unfold request_payload. cbn [conversation_history set_history].
  rewrite <- app_assoc. cbn [app].
  change (build_instructions (set_history self _) cwd) with (build_instructions self cwd).
  change (build_tools_list (set_history self _)) with (build_tools_list self).
  cbn [max_tokens set_history].
  fold payload. rewrite H. reflexivity.
Qed.

Lemma turn_posts_user_message_twice_witness :
  message_turn (__init__ "http://localhost:8000" true true 4096 None) "/home/u"
               (fun _ => HttpTimeout) "hello"
  = message_turn (__init__ "http://localhost:8000" true true 4096 None) "/home/u"
                 (fun p => match p with
                           | JObj (("input", JArr [_; _]) :: _) => HttpTimeout
                           | _ => HttpConnectionError
                           end) "hello".
Proof.
  apply (turn_posts_user_message_twice
           (__init__ "http://localhost:8000" true true 4096 None) "/home/u"
           (fun _ => HttpTimeout)
           (fun p => match p with
                     | JObj (("input", JArr [_; _]) :: _) => HttpTimeout
                     | _ => HttpConnectionError
                     end) "hello").
  reflexivity.
Defined.



(** X11. A request answered with a falsy body (the empty object, [null],
    zero, the empty string or the empty list) is handled like a failed
    request: the user's message is removed again and the client is as before
    the turn. *)
Theorem falsy_body_is_handled_as_failure
    (self : client) (cwd : string) (srv : server) (user_input : string)
    (body : value) :
  srv (request_payload
         (set_history self (conversation_history self ++ [user_message_item user_input]))
         cwd user_input) = HttpJson body ->
  truthy body = false ->
  message_turn self cwd srv user_input = (self, Continue).
Proof.
  intros Hsrv Hf. unfold message_turn. rewrite send_message_posts, Hsrv, Hf.
  cbn [conversation_history set_history].
  now rewrite ChatClientFacts.pop_after_append, ChatClientFacts.set_history_twice,
    ChatClientFacts.set_history_same.
Qed.

Lemma falsy_body_is_handled_as_failure_witness :
  let self := __init__ "http://localhost:8000" true true 4096 None in
  message_turn self "/home/u" (fun _ => HttpJson (JObj [])) "hello" = (self, Continue).
Proof.
  cbv zeta.
  apply (falsy_body_is_handled_as_failure
           (__init__ "http://localhost:8000" true true 4096 None) "/home/u"
           (fun _ => HttpJson (JObj [])) "hello" (JObj [])).
  - reflexivity.
  - reflexivity.
Defined.

(** X22. A request answered with a truthy body that is no object (a
    non-empty list, a number other than zero, [true], a non-empty string)
    ends the loop: [display_response] raises [AttributeError], which [run]
    does not catch; the user's message stays in the history and the inputs
    that follow are not read. *)
Theorem body_that_is_no_object_ends_loop
    (self : client) (getcwd : nat -> pyresult string) (cwd0 cwd : string) (srv : server)
    (raw : string) (rest : list input_event) (body : value) :
  getcwd 0 = Returns cwd0 ->
  getcwd 1 = Returns cwd ->
  strip raw <> "" ->
  startswith "/" (strip raw) = false ->
  srv (request_payload
         (set_history self (conversation_history self ++ [user_message_item (strip raw)]))
         cwd (strip raw)) = HttpJson body ->
  truthy body = true ->
  is_dict body = false ->
  exists e : pyexn,
    exn_class e = "AttributeError" /\
    run self getcwd srv (InputLine raw :: rest)
    = (set_history self (conversation_history self ++ [user_message_item (strip raw)]),
       Crash e).
Proof.
  intros Hcwd0 Hcwd Hne Hc Hsrv Ht Hd. unfold run. rewrite Hcwd0. cbn [chat_loop].
  rewrite Hcwd. unfold run_iteration, line_turn.
  destruct (String.eqb_spec (strip raw) ""); [contradiction|]. rewrite Hc.
  unfold message_turn. rewrite send_message_posts, Hsrv, Ht.
  unfold display_response. rewrite Ht. cbn [negb].
  destruct body; try discriminate; eexists; (split; [|reflexivity]); reflexivity.
Qed.

(** A server that answers every request with the number 0.5. *)
Lemma body_that_is_no_object_ends_loop_witness :
  let self := __init__ "http://localhost:8000" true true 4096 None in
  exists e : pyexn,
    exn_class e = "AttributeError" /\
    run self (fun _ => Returns "/home/u") (fun _ => HttpJson (JFloat "0.5"))
        (InputLine "hello" :: [InputLine "again"])
    = (set_history self (conversation_history self ++ [user_message_item (strip "hello")]),
       Crash e).
Proof.
  cbv zeta.
  apply (body_that_is_no_object_ends_loop
           (__init__ "http://localhost:8000" true true 4096 None)
           (fun _ => Returns "/home/u") "/home/u" "/home/u"
           (fun _ => HttpJson (JFloat "0.5")) "hello" [InputLine "again"]
           (JFloat "0.5")).
  - reflexivity.
  - reflexivity.
  - discriminate.
  - reflexivity.
  - reflexivity.
  - vm_compute. reflexivity.
  - reflexivity.
Defined.

(** X12. A line that opens with a slash (after the white space around it is
    stripped) never reaches the server, whatever follows the slash: the
    outcome of the pass depends neither on the server nor on what
    [os.getcwd()] would do, and the client after it is the client before
    it, or, for [/clear] in any letter case, that client with an empty
    history. *)
Theorem commands_never_reach_server
    (self : client) (getcwd1 getcwd2 : pyresult string) (srv1 srv2 : server)
    (raw : string) :
  startswith "/" (strip raw) = true ->
  run_iteration self getcwd1 srv1 (InputLine raw)
  = run_iteration self getcwd2 srv2 (InputLine raw) /\
  (fst (run_iteration self getcwd1 srv1 (InputLine raw)) = self \/
   (lower (strip raw) = "/clear" /\
    fst (run_iteration self getcwd1 srv1 (InputLine raw)) = set_history self [])).
Proof.
  intros Hc. unfold run_iteration, line_turn. rewrite Hc.
  destruct (String.eqb (strip raw) ""); [split; [reflexivity|left; reflexivity]|].
  destruct (String.eqb (lower (strip raw)) "/exit" || String.eqb (lower (strip raw)) "/quit");
    [split; [reflexivity|left; reflexivity]|].
  destruct (String.eqb_spec (lower (strip raw)) "/clear") as [E|E].
  - split; [reflexivity|right; split; [exact E|reflexivity]].
  - split; [reflexivity|left; reflexivity].
Qed.

(** The line [/CLEAR] between a space and a no-break space (U+00A0), with a
    server that times out and one that answers, in a directory that is
    there and one that is gone. *)
Lemma commands_never_reach_server_witness :
  let self := set_history (__init__ "http://localhost:8000" true true 4096 None)
                          [user_message_item "earlier"] in
  let raw := " /CLEAR" +:+ String "194" (String "160" "") in
  let gone := Raises (PyExn "FileNotFoundError" "No such file or directory") in
  run_iteration self (Returns "/home/u") (fun _ => HttpTimeout) (InputLine raw)
  = run_iteration self gone (fun _ => HttpJson JNull) (InputLine raw) /\
  (fst (run_iteration self (Returns "/home/u") (fun _ => HttpTimeout) (InputLine raw)) = self \/
   (lower (strip raw) = "/clear" /\
    fst (run_iteration self (Returns "/home/u") (fun _ => HttpTimeout) (InputLine raw))
    = set_history self [])).
Proof.
  cbv zeta.
  apply (commands_never_reach_server
           (set_history (__init__ "http://localhost:8000" true true 4096 None)
                        [user_message_item "earlier"])
           (Returns "/home/u")
           (Raises (PyExn "FileNotFoundError" "No such file or directory"))
           (fun _ => HttpTimeout) (fun _ => HttpJson JNull)
           (" /CLEAR" +:+ String "194" (String "160" ""))).
  vm_compute. reflexivity.
Defined.

Lemma display_response_dicts (self self' : client) (response : value) :
  forallb is_dict (conversation_history self) = true ->
  display_response self response = Returns self' ->
  forallb is_dict (conversation_history self') = true.
Proof.
  intros Hh. unfold display_response.
  destruct (negb (truthy response)); [intros [= <-]; exact Hh|].
  destruct (get response "output" (JArr [])) as [output|e]; [|discriminate]. cbn [bind].
  destruct (iterate output) as [items|e]; [|discriminate]. cbn [bind].
  destruct (display_output items) as [[]|e] eqn:Hs; [|discriminate]. cbn [bind].
  intros [= <-]. cbn [conversation_history set_history].
  rewrite forallb_app, Hh, (display_output_dicts _ Hs). reflexivity.
Qed.

Lemma message_turn_dicts (self : client) (cwd : string) (srv : server)
    (user_input : string) :
  forallb is_dict (conversation_history self) = true ->
  forallb is_dict (conversation_history (fst (message_turn self cwd srv user_input))) = true.
Proof.
  intros Hh.
  assert (H1 : forallb is_dict (conversation_history self ++ [user_message_item user_input])
               = true).
  { rewrite forallb_app, Hh. reflexivity. }
  unfold message_turn.
  cbn [conversation_history set_history].
  rewrite ChatClientFacts.pop_after_append.
  destruct (send_message _ cwd srv user_input) as [response|]; [|exact Hh].
  destruct (truthy response); [|exact Hh].
  destruct (display_response _ response) as [self2|e] eqn:E; [|exact H1].
  cbn [fst]. eapply display_response_dicts; [|exact E]. exact H1.
Qed.

Lemma run_iteration_dicts (self : client) (getcwd : pyresult string) (srv : server)
    (ev : input_event) :
  forallb is_dict (conversation_history self) = true ->
  forallb is_dict (conversation_history (fst (run_iteration self getcwd srv ev))) = true.
Proof.
  intros Hh.
  assert (H1 : forall text : string,
             forallb is_dict (conversation_history self ++ [user_message_item text]) = true).
  { intros text. rewrite forallb_app, Hh. reflexivity. }
  assert (Hline : forall (raw : string) (interrupted : bool),
             forallb is_dict
               (conversation_history (fst (line_turn self getcwd srv raw interrupted)))
             = true).
  { intros raw interrupted. unfold line_turn.
    destruct (String.eqb (strip raw) ""); [exact Hh|].
    destruct (startswith "/" (strip raw)).
    - destruct (_ || _); [exact Hh|].
      destruct (String.eqb _ "/clear"); [reflexivity|exact Hh].
    - destruct getcwd as [cwd|e]; [|apply H1].
      destruct interrupted; [apply H1|now apply message_turn_dicts]. }
  unfold run_iteration. destruct ev as [raw| | |raw]; try exact Hh; apply Hline.
Qed.

Lemma chat_loop_dicts (self : client) (getcwd : nat -> pyresult string) (srv : server)
    (inputs : list input_event) :
  forallb is_dict (conversation_history self) = true ->
  forallb is_dict (conversation_history (fst (chat_loop self getcwd srv inputs))) = true.
Proof.
  revert self getcwd. induction inputs as [|ev inputs IH]; intros self getcwd Hh; [exact Hh|].
  cbn [chat_loop]. pose proof (run_iteration_dicts self (getcwd 0) srv ev Hh) as Hs.
  destruct (run_iteration self (getcwd 0) srv ev) as [self' [| |e]]; cbn [fst] in *;
    [now apply IH|exact Hs|exact Hs].
Qed.

(** X14. Whatever the user types, Ctrl-C at the prompt or during a request
    included, whatever the server answers and whatever [os.getcwd()] does,
    the history stays a list of objects: if every item of the history is a
    JSON object when [run] starts, so is every item when it ends, be it by
    a break, an exception or the end of the inputs. *)
Theorem history_items_stay_objects
    (self : client) (getcwd : nat -> pyresult string) (srv : server)
    (inputs : list input_event) :
  forallb is_dict (conversation_history self) = true ->
  forallb is_dict (conversation_history (fst (run self getcwd srv inputs))) = true.
Proof.
  intros Hh. unfold run. destruct (getcwd 0) as [cwd|e]; [|exact Hh].
  now apply chat_loop_dicts.
Qed.

(** A server whose answer lists an object and then a number: the number is
    reached by the loop of [display_response], which raises before the
    history is extended. *)
Lemma history_items_stay_objects_witness :
  forallb is_dict
    (conversation_history
       (fst (run (__init__ "http://localhost:8000" true true 4096 None)
                 (fun _ => Returns "/home/u")
                 (fun _ => HttpJson (JObj [("output", JArr [JObj []; JInt 1])]))
                 [InputLineInterrupted "first"; InputLine "hello"; InputLine "again"])))
  = true.
Proof.
  apply (history_items_stay_objects
           (__init__ "http://localhost:8000" true true 4096 None)
           (fun _ => Returns "/home/u")
           (fun _ => HttpJson (JObj [("output", JArr [JObj []; JInt 1])]))
           [InputLineInterrupted "first"; InputLine "hello"; InputLine "again"]).
  reflexivity.
Defined.

Lemma chat_loop_unanswered
    (srv : server) (inputs : list input_event) (self : client)
    (getcwd : nat -> pyresult string) :
  (forall (payload body : value), srv payload <> HttpJson body) ->
  (forall n : nat, exists cwd : string, getcwd n = Returns cwd) ->
  (forall raw : string, ~ In (InputLineInterrupted raw) inputs) ->
  (fst (chat_loop self getcwd srv inputs) = self \/
   fst (chat_loop self getcwd srv inputs) = set_history self []) /\
  (snd (chat_loop self getcwd srv inputs) = Continue \/
   snd (chat_loop self getcwd srv inputs) = Break).
Proof.
  intros Hsrv.
  assert (Hstep : forall (s : client) (cwd : string) (ev : input_event),
             (forall raw : string, ev <> InputLineInterrupted raw) ->
             (fst (run_iteration s (Returns cwd) srv ev) = s \/
              fst (run_iteration s (Returns cwd) srv ev) = set_history s []) /\
             (snd (run_iteration s (Returns cwd) srv ev) = Continue \/
              snd (run_iteration s (Returns cwd) srv ev) = Break)).
  { intros s cwd ev Hev. destruct ev as [raw| | |raw]; [|cbn; auto|cbn; auto|].
    - destruct (String.eqb_spec (strip raw) "") as [E|E].
      + unfold run_iteration, line_turn. rewrite E. cbn. auto.
      + destruct (startswith "/" (strip raw)) eqn:Hc.
        * unfold run_iteration, line_turn. rewrite Hc.
          destruct (String.eqb (strip raw) ""); [cbn; auto|].
          destruct (_ || _); [cbn; auto|].
          destruct (String.eqb _ "/clear"); cbn; auto.
        * rewrite (ChatClientFacts.run_iteration_failed_request s cwd srv raw E Hc Hsrv).
          cbn. auto.
    - now destruct (Hev raw). }
  revert self getcwd. induction inputs as [|ev inputs IH]; intros self getcwd Hcwd Hint;
    [cbn; auto|].
  cbn [chat_loop]. destruct (Hcwd 0) as [cwd Hcwd0]. rewrite Hcwd0.
  assert (Hev : forall raw : string, ev <> InputLineInterrupted raw).
  { intros raw ->. apply (Hint raw). left. reflexivity. }
  destruct (Hstep self cwd ev Hev) as [Hc Hk].
  destruct (run_iteration self (Returns cwd) srv ev) as [self' ctl]; cbn [fst snd] in *.
  destruct ctl as [| |e].
  - destruct (IH self' (fun n => getcwd (S n))) as [Hc' Hk'].
    + intros n. apply Hcwd.
    + intros raw Hin. apply (Hint raw). right. exact Hin.
    + split; [|exact Hk'].
      destruct Hc as [-> | ->]; [exact Hc'|].
      destruct Hc' as [-> | ->]; right; reflexivity.
  - cbn. auto.
  - destruct Hk; discriminate.
Qed.

(** X15. While no request is answered, [os.getcwd()] returns whenever it is
    called and no Ctrl-C arrives during a request, the history never grows:
    after any inputs, the client is as it was at the start, or as it was
    with an empty history (after a [/clear]), and [run] never ends by an
    exception. *)
Theorem unanswered_run_never_grows_history
    (self : client) (getcwd : nat -> pyresult string) (srv : server)
    (inputs : list input_event) :
  (forall (payload body : value), srv payload <> HttpJson body) ->
  (forall n : nat, exists cwd : string, getcwd n = Returns cwd) ->
  (forall raw : string, ~ In (InputLineInterrupted raw) inputs) ->
  (fst (run self getcwd srv inputs) = self \/
   fst (run self getcwd srv inputs) = set_history self []) /\
  (snd (run self getcwd srv inputs) = Continue \/ snd (run self getcwd srv inputs) = Break).
Proof.
  intros Hsrv Hcwd Hint. unfold run. destruct (Hcwd 0) as [cwd0 ->].
  apply chat_loop_unanswered; [exact Hsrv| |exact Hint].
  intros n. apply Hcwd.
Qed.

Lemma unanswered_run_never_grows_history_witness :
  let self := set_history (__init__ "http://localhost:8000" true true 4096 None)
                          [user_message_item "earlier"] in
  let inputs := [InputLine "hello"; InputInterrupt; InputLine "/clear"; InputLine "again";
                 InputEOF] in
  (fst (run self (fun _ => Returns "/home/u") (fun _ => HttpTimeout) inputs) = self \/
   fst (run self (fun _ => Returns "/home/u") (fun _ => HttpTimeout) inputs)
   = set_history self []) /\
  (snd (run self (fun _ => Returns "/home/u") (fun _ => HttpTimeout) inputs) = Continue \/
   snd (run self (fun _ => Returns "/home/u") (fun _ => HttpTimeout) inputs) = Break).
Proof.
  cbv zeta.
  apply (unanswered_run_never_grows_history
           (set_history (__init__ "http://localhost:8000" true true 4096 None)
                        [user_message_item "earlier"])
           (fun _ => Returns "/home/u") (fun _ => HttpTimeout)
           [InputLine "hello"; InputInterrupt; InputLine "/clear"; InputLine "again";
            InputEOF]).
  - intros payload body. discriminate.
  - intros n. exists "/home/u". reflexivity.
  - intros raw [H|[H|[H|[H|[H|[]]]]]]; discriminate.
Defined.

(** X16. The three rows of the box [print_header] draws, colour codes
    apart, have the same length: each is four characters longer than the
    text, whatever the text, characters outside ASCII included. Lengths are
    counted in characters, as [len] counts them, not in columns of the
    terminal. *)
Theorem header_box_rows_have_equal_length (text : string) :
  Forall (fun row => len row = (len text + 4)%nat) (header_box text).
Proof.
  unfold header_box.
  repeat constructor; rewrite !PyMore.len_app, ?PyMore.len_times;
    change (len "╭") with 1%nat; change (len "╮") with 1%nat;
    change (len "╰") with 1%nat; change (len "╯") with 1%nat;
    change (len "─") with 1%nat; change (len "│ ") with 2%nat;
    change (len " │") with 2%nat; lia.
Qed.

(** X17. The reasoning preview is one line of at most 100 characters of the
    text, with three dots added when something was left out: it holds no
    line feed, is never longer than 103 characters, and is the text itself
    when the text is one line of at most 100 characters. *)
Theorem reasoning_preview_is_one_short_line (text : string) :
  (len (reasoning_preview text) <= 103)%nat /\
  split "010" (reasoning_preview text) = [reasoning_preview text] /\
  (split "010" text = [text] -> (len text <= 100)%nat -> reasoning_preview text = text).
Proof.
  unfold reasoning_preview.
  pose proof (PyMore.len_slice_to 100 (hd "" (split "010" text))) as Hlen.
  pose proof (PyMore.slice_to_free "010" 100 _ (PyMore.split_hd_free "010" text)) as Hfree.
  repeat split.
  - destruct (_ || _); [|lia]. rewrite PyMore.len_app. change (len "...") with 3%nat. lia.
  - apply PyMore.split_free. destruct (_ || _); [|exact Hfree].
    rewrite PyMore.list_ascii_app. apply Forall_app. split; [exact Hfree|].
    repeat constructor; discriminate.
  - intros Hone Hshort. rewrite Hone. cbn [hd length].
    destruct (Nat.ltb_spec 100 (len text)); [lia|].
    cbn [Nat.ltb Nat.leb orb]. now apply PyMore.slice_to_all.
Qed.

(** X18. Slashes at the end of the address given to the constructor do not
    matter: with any number of them the client posts to the same endpoint as
    without. *)
Theorem trailing_slashes_do_not_change_endpoint
    (address : string) (n : nat) (file_editing web_search : bool)
    (tokens : Z) (instructions : option string) :
  endpoint (__init__ (address +:+ times "/" n) file_editing web_search tokens instructions)
  = endpoint (__init__ address file_editing web_search tokens instructions).
Proof.
  unfold endpoint, __init__. cbn [api_url].
  now rewrite PyMore.rstrip_char_times.
Qed.

End ChatClientMore.

(** ** The simple client: tool flags and reasoning effort across messages *)
Module SimpleChatClientFacts.
Import Py Json SimpleChatClient.
Import ChatClient (InputLine, InputEOF, InputInterrupt, InputLineInterrupted).

Lemma step_web (srv : server) (st : mode) :
  interactive_step srv st (InputLine "/web")
  = ({| use_web := true; use_py := use_py st; effort := effort st |}, true, []).
Proof. reflexivity. Qed.

Lemma step_message (srv : server) (st : mode) (raw : string) :
  strip raw <> "" -> startswith "/" (strip raw) = false ->
  interactive_step srv st (InputLine raw)
  = match chat srv (strip raw) (use_web st) (use_py st) (effort st) with
    | Returns _ =>
        ({| use_web := false; use_py := false; effort := effort st |}, true,
         [chat_payload (strip raw) (use_web st) (use_py st) (effort st)])
    | Raises _ =>
        (st, true, [chat_payload (strip raw) (use_web st) (use_py st) (effort st)])
    end.
Proof.
  intros Hne Hc. unfold interactive_step.
  destruct (String.eqb_spec (strip raw) ""); [contradiction|]. rewrite Hc. reflexivity.
Qed.



(** X20. When [chat] raises (an answer that is no object, for one), the
    flags are not reset: the message after it is posted with the same tools
    again. *)
Theorem tool_flags_survive_a_raising_chat
    (srv : server) (st : mode) (m1 m2 : string) (e : pyexn) :
  strip m1 <> "" -> startswith "/" (strip m1) = false ->
  strip m2 <> "" -> startswith "/" (strip m2) = false ->
  chat srv (strip m1) true (use_py st) (effort st) = Raises e ->
  snd (interactive_loop srv st [InputLine "/web"; InputLine m1; InputLine m2])
  = [chat_payload (strip m1) true (use_py st) (effort st);
     chat_payload (strip m2) true (use_py st) (effort st)].
Proof.
  intros H1 C1 H2 C2 Hchat.
  cbn [interactive_loop]. rewrite step_web.
  rewrite (step_message srv _ m1 H1 C1). cbn [use_web use_py effort]. rewrite Hchat.
  rewrite (step_message srv _ m2 H2 C2). cbn [use_web use_py effort].
  destruct (chat srv (strip m2) true (use_py st) (effort st)); reflexivity.
Qed.

Lemma tool_flags_survive_a_raising_chat_witness :
  snd (interactive_loop (fun _ => PostJson (JArr [])) initial_mode
         [InputLine "/web"; InputLine "one"; InputLine "two"])
  = [chat_payload "one" true false "low"; chat_payload "two" true false "low"].
Proof.
  apply (tool_flags_survive_a_raising_chat
           (fun _ => PostJson (JArr [])) initial_mode "one" "two"
           (PyExn "AttributeError" "object has no attribute 'get'")).
  - discriminate.
  - reflexivity.
  - discriminate.
  - reflexivity.
  - reflexivity.
Defined.

Lemma step_effort (srv : server) (st : mode) (ev : ChatClient.input_event) :
  effort st = "low" \/ effort st = "medium" \/ effort st = "high" ->
  (let st' := fst (fst (interactive_step srv st ev)) in
   effort st' = "low" \/ effort st' = "medium" \/ effort st' = "high") /\
  forall p : value, In p (snd (interactive_step srv st ev)) ->
    exists (message : string) (web py : bool) (e : string),
      p = chat_payload message web py e /\ (e = "low" \/ e = "medium" \/ e = "high").
Proof.
  intros He. unfold interactive_step. destruct ev as [raw| | |raw]; cbn [fst snd];
    try (split; [exact He|intros p []]).
  - destruct (String.eqb (strip raw) ""); [split; [exact He|intros p []]|].
    destruct (startswith "/" (strip raw)).
    + repeat match goal with
             | |- context [if String.eqb ?a ?b then _ else _] =>
                 destruct (String.eqb a b)
             end; cbn [fst snd effort]; (split; [auto|intros p []]).
    + destruct (chat srv _ _ _ _); cbn [fst snd effort];
        (split; [exact He|intros p [<-|[]]; eauto 8]).
  - destruct (String.eqb (strip raw) ""); [split; [exact He|intros p []]|].
    destruct (startswith "/" (strip raw)).
    + repeat match goal with
             | |- context [if String.eqb ?a ?b then _ else _] =>
                 destruct (String.eqb a b)
             end; cbn [fst snd effort]; (split; [auto|intros p []]).
    + cbn [fst snd effort]. split; [exact He|intros p [<-|[]]; eauto 8].
Qed.

Lemma loop_effort (srv : server) (inputs : list ChatClient.input_event) (st : mode)
    (p : value) :
  effort st = "low" \/ effort st = "medium" \/ effort st = "high" ->
  In p (snd (interactive_loop srv st inputs)) ->
  exists (message : string) (web py : bool) (e : string),
    p = chat_payload message web py e /\ (e = "low" \/ e = "medium" \/ e = "high").
Proof.
  revert st. induction inputs as [|ev inputs IH]; intros st He Hin; [destruct Hin|].
  cbn [interactive_loop] in Hin.
  destruct (step_effort srv st ev He) as [He' Hp].
  destruct (interactive_step srv st ev) as [[st' go] posted]. cbn [fst snd] in *.
  destruct go.
  - specialize (IH st' He').
    destruct (interactive_loop srv st' inputs) as [final later]. cbn [snd] in *.
    apply in_app_or in Hin. destruct Hin as [Hin|Hin]; [now apply Hp|now apply IH].
  - cbn [snd] in Hin. now apply Hp.
Qed.

(** X21. Every payload [interactive_mode] posts carries a reasoning effort
    of [low], [medium] or [high], whatever was typed before it. *)
Theorem posted_effort_is_low_medium_or_high
    (srv : server) (inputs : list ChatClient.input_event) (p : value) :
  In p (snd (interactive_mode srv inputs)) ->
  exists (message : string) (web py : bool) (e : string),
    p = chat_payload message web py e /\ (e = "low" \/ e = "medium" \/ e = "high").
Proof.
  apply loop_effort. left. reflexivity.
Qed.

Lemma posted_effort_is_low_medium_or_high_witness :
  exists (message : string) (web py : bool) (e : string),
    chat_payload "one" false false "high" = chat_payload message web py e /\
    (e = "low" \/ e = "medium" \/ e = "high").
Proof.
  apply (posted_effort_is_low_medium_or_high
           (fun _ => PostRequestException) [InputLine "/HIGH"; InputLine "one"]).
  left. reflexivity.
Defined.

End SimpleChatClientFacts.
